(** * Backlink dead-page scanner: a shallow embedding of scan-backlinks.js

    The repository holds three variants of the same serverless function:

    - [First]:  netlify/functions/scan-backlinks.js, first text
                (grouping only, no liveness probe);
    - [Second]: netlify/functions/scan-backlinks.js, second text
                (grouping, [filterDeadPages], HEAD probe with GET fallback);
    - [Public]: public/netlify/functions/scan-backlinks.js
                (rate limiter, grouping with a [Set], sequential HEAD probe).

    Platform functions ([new URL], the clock, the network and the call that
    creates a request, [JSON.parse]) are inputs of the model; everything the
    repository's own code does with their results is written out below.  A
    string is a sequence of code units below 256. *)

From Stdlib Require Import ZArith Lia Bool Ascii String List Permutation Sorted.
From Equations Require Import Equations.
From stdpp Require Import base strings list gmap.
Import ListNotations.

Local Open Scope Z_scope.

(** ** JavaScript values of the provider's fields

    A field of a backlink record is a string, or [null], or absent. *)

Inductive jsval :=
| JUndefined
| JNull
| JString (s : string).

#[global] Instance jsval_eq_dec : EqDecision jsval.
Proof. solve_decision. Defined.

(** ToBoolean: [undefined], [null] and the empty string are falsy. *)
Definition truthy (v : jsval) : bool :=
  match v with
  | JString s => negb (String.eqb s "")
  | _ => false
  end.

(** ToString, as applied by [new URL(v)] and by a property access [o[v]]. *)
Definition js_to_string (v : jsval) : string :=
  match v with
  | JUndefined => "undefined"
  | JNull => "null"
  | JString s => s
  end.

(** [a || b] *)
Definition js_or (a b : jsval) : jsval := if truthy a then a else b.

(** [n || 0] on a number that may be absent. *)
Definition or_zero (n : option Z) : Z :=
  match n with
  | Some z => z
  | None => 0
  end.

(** [array.indexOf(v) === -1] and [!array.includes(v)] on these values. *)
Definition includes (l : list jsval) (v : jsval) : bool :=
  existsb (fun w => bool_decide (w = v)) l.

(** The errors that the platform raises in this code. *)
Inductive exn :=
| TypeError
| SyntaxError.

(** Outcome of a block that may throw. *)
Inductive completion (A : Type) :=
| Normal (a : A)
| Threw (e : exn).
Arguments Normal {A} a.
Arguments Threw {A} e.

(** ** Promises and the network *)

Inductive promise (A : Type) :=
| Pending
| Fulfilled (a : A)
| Rejected (reason : exn).
Arguments Pending {A}.
Arguments Fulfilled {A} a.
Arguments Rejected {A} reason.

(** [resolve(v)]: only the first settlement of a promise counts. *)
Definition resolve {A : Type} (v : A) (p : promise A) : promise A :=
  match p with
  | Pending => Fulfilled v
  | _ => p
  end.

(** The options object handed to [https.request] or [http.request]. *)
Module Req.
Record t := {
  over_https : bool;
  hostname : string;
  path : string;
  method : string;
  timeout : Z;
  user_agent : option string
}.

(** [{ ...options, method: m }] *)
Definition with_method (m : string) (o : t) : t :=
  {| over_https := over_https o;
     hostname := hostname o;
     path := path o;
     method := m;
     timeout := timeout o;
     user_agent := user_agent o |}.
End Req.

(** An event of a request: ['response'], ['error'] or ['timeout'].  When the
    call of [request] has returned a request, the network decides its first
    event; every probe carries a [timeout] option, so one of the three
    occurs.  The call itself throws a [TypeError] on options that it refuses
    (a path with a space in it, say); the platform function
    [request_throws hostname path] of the variants below says when.  It
    reads the host and the path only: the other options of a probe are
    constants that the call accepts, for the HEAD and for the GET request
    alike. *)
Inductive outcome :=
| Response (statusCode : Z)
| ErrorEvent
| TimeoutEvent.

(** The events that the listeners of a request see, in order.  Every
    ['timeout'] listener of this code calls [destroy()] on its request, and a
    request destroyed before any response emits ['error'] (socket hang up)
    next. *)
Definition emitted (first : outcome) : list outcome :=
  match first with
  | TimeoutEvent => [TimeoutEvent; ErrorEvent]
  | e => [e]
  end.

(** What a probe leaves behind: the state of its promise and the requests it
    issued, oldest first. *)
Record probe := {
  settled : promise Z;
  issued : list Req.t
}.

(** The parts of a parsed URL that the code reads. *)
Module Url.
Record t := {
  protocol : string;
  hostname : string;
  pathname : string;
  search : string
}.
End Url.

(** ** Raw backlink edges and per-target accumulators *)

Record edge := {
  url_to : jsval;
  url_from : jsval;
  domain_from : jsval;
  domain_from_rank : option Z
}.

Record referrer := {
  domain : jsval;
  url : jsval;
  domain_rank : Z;
  backlinks : Z
}.

(** The object stored under [groupedByTarget[targetPath]].  In the public
    variant [referring_domains] is a [Set]: a duplicate-free sequence in
    insertion order, grown by [add]. *)
Module Acc.
Record t := {
  dead_page : jsval;
  target_url : jsval;
  backlink_count : nat;
  referring_domains : list jsval;
  top_referrers : list referrer;
  status_code : option Z
}.

(** The object literal assigned when a key is first seen. *)
Definition fresh (targetPath targetUrl : jsval) : t :=
  {| dead_page := targetPath;
     target_url := targetUrl;
     backlink_count := 0;
     referring_domains := [];
     top_referrers := [];
     status_code := None |}.

(** [backlink_count++] *)
Definition incr (a : t) : t :=
  {| dead_page := dead_page a;
     target_url := target_url a;
     backlink_count := S (backlink_count a);
     referring_domains := referring_domains a;
     top_referrers := top_referrers a;
     status_code := status_code a |}.

(** [referring_domains.push(d)] *)
Definition push_domain (d : jsval) (a : t) : t :=
  {| dead_page := dead_page a;
     target_url := target_url a;
     backlink_count := backlink_count a;
     referring_domains := referring_domains a ++ [d];
     top_referrers := top_referrers a;
     status_code := status_code a |}.

(** [if (top_referrers.length < 10) top_referrers.push(r)] *)
Definition push_referrer_capped (r : referrer) (a : t) : t :=
  {| dead_page := dead_page a;
     target_url := target_url a;
     backlink_count := backlink_count a;
     referring_domains := referring_domains a;
     top_referrers :=
       if (length (top_referrers a) <? 10)%nat
       then top_referrers a ++ [r] else top_referrers a;
     status_code := status_code a |}.
End Acc.

(** ** The object [groupedByTarget] used as a map

    Own properties are kept in creation order.  A read [o[k]] that finds no
    own property falls through to [Object.prototype], whose members are all
    truthy and carry none of the accumulator's fields. *)

Definition store := list (string * Acc.t).

Definition object_prototype_names : list string :=
  [ "constructor"; "hasOwnProperty"; "isPrototypeOf"; "propertyIsEnumerable";
    "toLocaleString"; "toString"; "valueOf"; "__proto__";
    "__defineGetter__"; "__defineSetter__";
    "__lookupGetter__"; "__lookupSetter__" ]%string.

Definition inherited (k : string) : bool :=
  existsb (String.eqb k) object_prototype_names.

Fixpoint own_lookup (st : store) (k : string) : option Acc.t :=
  match st with
  | [] => None
  | (k', a) :: rest => if String.eqb k' k then Some a else own_lookup rest k
  end.

(** In-place mutation of the object stored under an existing key. *)
Fixpoint own_update (st : store) (k : string) (f : Acc.t -> Acc.t) : store :=
  match st with
  | [] => []
  | (k', a) :: rest =>
      if String.eqb k' k then (k', f a) :: rest
      else (k', a) :: own_update rest k f
  end.

(** Assignment to a key that is not yet an own property. *)
Definition own_insert (st : store) (k : string) (a : Acc.t) : store :=
  st ++ [(k, a)].

Inductive property :=
| Own (a : Acc.t)
| Inherited
| Absent.

(** [groupedByTarget[k]] *)
Definition get_property (st : store) (k : string) : property :=
  match own_lookup st k with
  | Some a => Own a
  | None => if inherited k then Inherited else Absent
  end.

(** Sum of [backlink_count] over the own properties. *)
Definition total_backlinks (st : store) : nat :=
  list_sum (map (fun p => Acc.backlink_count (snd p)) st).

(** Running a loop body over the items, stopping at the first throw. *)
Fixpoint run_loop {St A : Type} (body : St -> A -> completion St)
    (s : St) (items : list A) : completion St :=
  match items with
  | [] => Normal s
  | x :: rest =>
      match body s x with
      | Normal s' => run_loop body s' rest
      | Threw e => Threw e
      end
  end.

(** The shape shared by the three grouping loops once the key is known:
    create the accumulator if [!groupedByTarget[targetPath]], then apply the
    mutations [f]; [on_inherited] is what those mutations do to a member of
    [Object.prototype]. *)
Definition group_under (st : store) (targetPath targetUrl : jsval)
    (f : Acc.t -> Acc.t) (on_inherited : completion store) : completion store :=
  let k := js_to_string targetPath in
  match get_property st k with
  | Own _ => Normal (own_update st k f)
  | Absent => Normal (own_insert st k (f (Acc.fresh targetPath targetUrl)))
  | Inherited => on_inherited
  end.

(** ** Enumeration order of own properties

    [Object.keys] and [Object.values] list the keys that are array indices
    first, in ascending numeric order, and then the other keys in creation
    order. *)

Definition is_digit (c : ascii) : bool :=
  ((48 <=? nat_of_ascii c) && (nat_of_ascii c <=? 57))%nat.

Fixpoint digits_value (s : string) (acc : N) : option N :=
  match s with
  | EmptyString => Some acc
  | String c rest =>
      if is_digit c
      then digits_value rest (10 * acc + (N_of_ascii c - 48))%N
      else None
  end.

(** A key is an array index when it is the canonical decimal form of an
    integer below 2^32 - 1. *)
Definition array_index (k : string) : option N :=
  match k with
  | EmptyString => None
  | String c rest =>
      if Ascii.eqb c "0" && negb (String.eqb rest "") then None
      else match digits_value k 0 with
           | Some n => if (n <=? 4294967294)%N then Some n else None
           | None => None
           end
  end.

(** ** [Array.prototype.sort], [slice]

    The platform's sort is stable; for a comparator that orders by a numeric
    key its result is the stable insertion of each element among those that
    follow it. *)

Section Sort.
Context {A : Type}.
Variable compare : A -> A -> Z.

Fixpoint insert_sorted (x : A) (l : list A) : list A :=
  match l with
  | [] => [x]
  | y :: rest =>
      if 0 <? compare x y then y :: insert_sorted x rest
      else x :: y :: rest
  end.

Fixpoint js_sort (l : list A) : list A :=
  match l with
  | [] => []
  | x :: rest => insert_sorted x (js_sort rest)
  end.
End Sort.

(** [array.slice(from, to)] for [0 <= from]. *)
Definition slice {A : Type} (from to : nat) (l : list A) : list A :=
  firstn (to - from) (skipn from l).

(** [Object.values(groupedByTarget)] *)
Definition indexed_entries (st : store) : list (N * Acc.t) :=
  omap (fun p => match array_index (fst p) with
                 | Some n => Some (n, snd p)
                 | None => None
                 end) st.

Definition named_entries (st : store) : list Acc.t :=
  omap (fun p => match array_index (fst p) with
                 | Some _ => None
                 | None => Some (snd p)
                 end) st.

Definition object_values (st : store) : list Acc.t :=
  map snd (js_sort (fun a b => Z.of_N (fst a) - Z.of_N (fst b)) (indexed_entries st))
  ++ named_entries st.

(** ** The provider's reply, as far as the code inspects it *)

Inductive provider_reply :=
| NoReply                              (* neither 'end' nor 'error' is ever emitted *)
| ConnectionFailed                     (* the request emits 'error' *)
| Unparseable                          (* JSON.parse(data) or a field access throws *)
| Declined (status_message : jsval)    (* status_code !== 20000 *)
| Accepted (items : list edge).        (* status_code === 20000; no items read as [] *)

(** What [callDataForSEO] resolves with: [{ error }] or [{ results }]. *)
Inductive api_result (R : Type) :=
| ApiError (error : jsval)
| ApiResults (results : list R).
Arguments ApiError {R} error.
Arguments ApiResults {R} results.

(** The grouped record once [referring_domains] is replaced by its size. *)
Module Item.
Record t := {
  dead_page : jsval;
  target_url : jsval;
  backlink_count : nat;
  top_referrers : list referrer;
  status_code : option Z;
  referring_domains_count : nat
}.

Definition of_acc (a : Acc.t) : t :=
  {| dead_page := Acc.dead_page a;
     target_url := Acc.target_url a;
     backlink_count := Acc.backlink_count a;
     top_referrers := Acc.top_referrers a;
     status_code := Acc.status_code a;
     referring_domains_count := length (Acc.referring_domains a) |}.

(** [(a, b) => b.backlink_count - a.backlink_count] *)
Definition by_backlinks_desc (a b : t) : Z :=
  Z.of_nat (backlink_count b) - Z.of_nat (backlink_count a).
End Item.

(** The accumulator of the public variant once [status_code] is set and
    [referring_domains] is overwritten by the size of the set. *)
Module Marked.
Record t := {
  dead_page : jsval;
  target_url : jsval;
  backlink_count : nat;
  referring_domains : nat;
  top_referrers : list referrer;
  status_code : Z
}.

Definition mark (status : Z) (item : Acc.t) : t :=
  {| dead_page := Acc.dead_page item;
     target_url := Acc.target_url item;
     backlink_count := Acc.backlink_count item;
     referring_domains := length (Acc.referring_domains item);
     top_referrers := Acc.top_referrers item;
     status_code := status |}.

(** [(a, b) => b.backlink_count - a.backlink_count] *)
Definition by_backlinks_desc (a b : t) : Z :=
  Z.of_nat (backlink_count b) - Z.of_nat (backlink_count a).
End Marked.

(** ** Rows of the dead-page list (second variant) *)

Module Dead.
Record t := {
  dead_page : jsval;
  dead_page_path : jsval;
  status_code : Z;
  backlink_count : nat;
  referring_domains : nat;
  top_referrers : list referrer
}.

(** [(a, b) => b.backlink_count - a.backlink_count] *)
Definition by_backlinks_desc (a b : t) : Z :=
  Z.of_nat (backlink_count b) - Z.of_nat (backlink_count a).
End Dead.

(** [v.startsWith(p)] on a string value. *)
Definition starts_with (v : jsval) (p : string) : bool :=
  String.prefix p (js_to_string v).

Section Grouping.
(** [new URL(s)]: [None] when the constructor throws. *)
Variable new_URL : string -> option Url.t.

(** [try { targetPath = new URL(targetUrl).pathname } catch (e) { targetPath = targetUrl }] *)
Definition target_path_guarded (targetUrl : jsval) : jsval :=
  match new_URL (js_to_string targetUrl) with
  | Some u => JString (Url.pathname u)
  | None => targetUrl
  end.

(** [if (referring_domains.indexOf(d) === -1) referring_domains.push(d)],
    and [referring_domains.add(d)] on a [Set]. *)
Definition add_domain (d : jsval) (a : Acc.t) : Acc.t :=
  if includes (Acc.referring_domains a) d then a else Acc.push_domain d a.

(** The property name under which a link is grouped by the guarded variants. *)
Definition grouping_key (link : edge) : string :=
  js_to_string (target_path_guarded (url_to link)).
End Grouping.

(** ** [Promise.all]

    The combinator keeps one slot per input promise.  When input [i] is
    fulfilled its value is stored in slot [i] (once) and the count of
    remaining inputs drops; the result is resolved with the slots when the
    count reaches zero, and rejected as soon as an input is rejected.
    [order] lists the inputs in the order in which they settle. *)
Module PromiseAll.
Section All.
Context {A : Type}.

Record state := {
  values : list (option A);
  remaining : nat;
  result : promise (list A)
}.

Definition collect (slots : list (option A)) : list A := omap id slots.

Definition start (n : nat) : state :=
  {| values := replicate n None;
     remaining := n;
     result := if (n =? 0)%nat then Fulfilled [] else Pending |}.

Definition settle (inputs : list (promise A)) (s : state) (i : nat) : state :=
  match inputs !! i, values s !! i with
  | Some (Fulfilled a), Some None =>
      let values' := <[i := Some a]> (values s) in
      let remaining' := pred (remaining s) in
      {| values := values';
         remaining := remaining';
         result := if (remaining' =? 0)%nat
                   then resolve (collect values') (result s)
                   else result s |}
  | Some (Rejected reason), Some None =>
      {| values := values s;
         remaining := remaining s;
         result := match result s with Pending => Rejected reason | r => r end |}
  | _, _ => s
  end.

Definition all (inputs : list (promise A)) (order : list nat) : promise (list A) :=
  result (fold_left (settle inputs) order (start (length inputs))).
End All.
End PromiseAll.

(** ** The HTTP request and response of the function *)

(** A parsed JSON text.  Numbers are kept as integers: the code only tests
    them for truth, and a fractional number is as truthy as a non-zero
    integer. *)
#[local] Unset Elimination Schemes.
Inductive json :=
| JsonNull
| JsonBool (b : bool)
| JsonNumber (z : Z)
| JsonString (s : string)
| JsonArray (elements : list json)
| JsonObject (members : list (string * json)).
#[local] Set Elimination Schemes.

Fixpoint member (name : string) (members : list (string * json)) : option json :=
  match members with
  | [] => None
  | (k, v) :: rest => if String.eqb k name then Some v else member name rest
  end.

(** [const { domain } = value]: throws on [null]; a primitive or an array has
    no such property. *)
Definition destructure_domain (value : json) : completion (option json) :=
  match value with
  | JsonNull => Threw TypeError
  | JsonObject members => Normal (member "domain" members)
  | _ => Normal None
  end.

(** ToBoolean of a property that may be absent. *)
Definition json_truthy (v : option json) : bool :=
  match v with
  | None => false
  | Some JsonNull => false
  | Some (JsonBool b) => b
  | Some (JsonNumber z) => negb (z =? 0)
  | Some (JsonString s) => negb (String.eqb s "")
  | Some (JsonArray _) => true
  | Some (JsonObject _) => true
  end.

(** The lower-case mapping of a code unit below 256: [A]-[Z] and the
    letters from 192 to 222, the sign 215 apart, have their lower-case form 32
    higher; every other code unit is kept (the upper-case forms of 181, 223
    and 255 lie above 255). *)
Definition lower_code_unit (c : ascii) : ascii :=
  let n := nat_of_ascii c in
  if ((65 <=? n) && (n <=? 90)
      || (192 <=? n) && (n <=? 222) && negb (n =? 215))%nat
  then ascii_of_nat (n + 32) else c.

(** [s.toLowerCase()] on a string of code units below 256. *)
Fixpoint toLowerCase (s : string) : string :=
  match s with
  | EmptyString => EmptyString
  | String c rest => String (lower_code_unit c) (toLowerCase rest)
  end.

(** [domain.toLowerCase()]: only a string has the method. *)
Definition lowered (domain : option json) : completion string :=
  match domain with
  | Some (JsonString s) => Normal (toLowerCase s)
  | _ => Threw TypeError
  end.

(** [s.replace(/^p/, '')] for a literal prefix [p]. *)
Definition strip_prefix (p s : string) : string :=
  if String.prefix p s
  then String.substring (String.length p) (String.length s - String.length p) s
  else s.

(** [s.replace(/\/$/, '')] *)
Fixpoint strip_final_slash (s : string) : string :=
  match s with
  | EmptyString => EmptyString
  | String c EmptyString => if Ascii.eqb c "/" then EmptyString else s
  | String c rest => String c (strip_final_slash rest)
  end.

(** [s.split(sep)[0]] for a one-character separator. *)
Fixpoint before_first (sep : ascii) (s : string) : string :=
  match s with
  | EmptyString => EmptyString
  | String c rest => if Ascii.eqb c sep then EmptyString else String c (before_first sep rest)
  end.

(** The chain applied to [domain] after [toLowerCase()]. *)
Definition strip_domain (s : string) : string :=
  let s := if String.prefix "https://" s then strip_prefix "https://" s
           else strip_prefix "http://" s in
  let s := strip_prefix "www." s in
  let s := strip_final_slash s in
  before_first "/" s.

Module Event.
Record t := {
  httpMethod : string;
  body : jsval
}.
End Event.

Record debug_info := {
  total_urls_from_api : nat;
  urls_checked : nat;
  dead_pages_found : nat
}.

(** The objects given to [JSON.stringify]; [R] is the type of a result row. *)
Inductive payload (R : Type) :=
| ErrorBody (error : jsval)
| InternalError (message : option exn)
| RateLimitBody (error message next_scan_available : string)
| SuccessBody (domain scanned_at : string) (results : list R) (debug : option debug_info).
Arguments ErrorBody {R} error.
Arguments InternalError {R} message.
Arguments RateLimitBody {R} error message next_scan_available.
Arguments SuccessBody {R} domain scanned_at results debug.

(** A response body is either the literal [''] or [JSON.stringify(p)]. *)
Inductive response_body (R : Type) :=
| EmptyBody
| Stringified (p : payload R).
Arguments EmptyBody {R}.
Arguments Stringified {R} p.

(** The empty string is not a JSON text. *)
Definition is_json_body {R : Type} (b : response_body R) : bool :=
  match b with
  | EmptyBody => false
  | Stringified _ => true
  end.

Module Response.
Record t (R : Type) := {
  statusCode : Z;
  headers : list (string * string);
  body : response_body R
}.
Arguments statusCode {R} t.
Arguments headers {R} t.
Arguments body {R} t.
End Response.

Definition cors_headers : list (string * string) :=
  [ ("Access-Control-Allow-Origin", "*");
    ("Access-Control-Allow-Headers", "Content-Type");
    ("Access-Control-Allow-Methods", "POST, OPTIONS");
    ("Content-Type", "application/json") ]%string.

(** [{ statusCode, headers, body }] with the handler's [headers] constant. *)
Definition respond {R : Type} (statusCode : Z) (body : response_body R) : Response.t R :=
  {| Response.statusCode := statusCode;
     Response.headers := cors_headers;
     Response.body := body |}.

(** What a run of the handler reads from its surroundings. *)
Module Env.
Record t := {
  DATAFORSEO_LOGIN : jsval;
  DATAFORSEO_PASSWORD : jsval;
  reply : provider_reply;
  (** successive values of [new Date().toISOString()] *)
  first_clock_reading : string;
  second_clock_reading : string
}.
End Env.

(** [catch (error) { return { statusCode: 500, ... } }] around an async body. *)
Definition catch_all {R : Type} (with_message : bool) (attempt : promise (Response.t R))
    : promise (Response.t R) :=
  match attempt with
  | Rejected e =>
      Fulfilled (respond 500 (Stringified
        (InternalError (if with_message then Some e else None))))
  | other => other
  end.

(** ** First variant *)
Module First.
Section WithPlatform.
Variable new_URL : string -> option Url.t.

Definition mutate (link : edge) (a : Acc.t) : Acc.t :=
  Acc.push_referrer_capped
    {| domain := domain_from link;
       url := url_from link;
       domain_rank := or_zero (domain_from_rank link);
       backlinks := 1 |}
    (add_domain (domain_from link) (Acc.incr a)).

(** Body of [for (let i = 0; i < backlinks.length; i++)].  On a member of
    [Object.prototype] the read [.referring_domains.indexOf] throws. *)
Definition step (st : store) (link : edge) : completion store :=
  let targetUrl := url_to link in
  let targetPath := target_path_guarded new_URL targetUrl in
  group_under st targetPath targetUrl (mutate link) (Threw TypeError).

Definition group (backlinks : list edge) : completion store :=
  run_loop step [] backlinks.

Definition callDataForSEO (reply : provider_reply) : promise (api_result Item.t) :=
  match reply with
  | NoReply => Pending
  | ConnectionFailed => Fulfilled (ApiError (JString "Failed to connect to API"))
  | Unparseable => Fulfilled (ApiError (JString "Failed to parse API response"))
  | Declined status_message =>
      Fulfilled (ApiError (js_or status_message (JString "API error")))
  | Accepted backlinks =>
      match group backlinks with
      | Threw _ => Fulfilled (ApiError (JString "Failed to parse API response"))
      | Normal groupedByTarget =>
          let results := map Item.of_acc (object_values groupedByTarget) in
          let results := js_sort Item.by_backlinks_desc results in
          Fulfilled (ApiResults (slice 0 1000 results))
      end
  end.
End WithPlatform.

Section Handler.
Variable new_URL : string -> option Url.t.
Variable JSON_parse : string -> option json.

(** The body of the handler's [try] block; a rejection is a throw. *)
Definition attempt (env : Env.t) (event : Event.t) : promise (Response.t Item.t) :=
  match JSON_parse (js_to_string (js_or (Event.body event) (JString "{}"))) with
  | None => Rejected SyntaxError
  | Some parsed =>
  match destructure_domain parsed with
  | Threw e => Rejected e
  | Normal domain =>
  if negb (json_truthy domain)
  then Fulfilled (respond 400 (Stringified (ErrorBody (JString "Domain is required"))))
  else
  match lowered domain with
  | Threw e => Rejected e
  | Normal lower =>
  let normalizedDomain := strip_domain lower in
  let login := Env.DATAFORSEO_LOGIN env in
  let password := Env.DATAFORSEO_PASSWORD env in
  if negb (truthy login) || negb (truthy password)
  then Fulfilled (respond 500 (Stringified (ErrorBody (JString "API not configured"))))
  else
  match callDataForSEO new_URL (Env.reply env) with
  | Pending => Pending
  | Rejected e => Rejected e
  | Fulfilled (ApiError error) =>
      if truthy error
      then Fulfilled (respond 500 (Stringified (ErrorBody error)))
      else (* apiResult.results is undefined *)
           Fulfilled (respond 200 (Stringified
             (SuccessBody normalizedDomain (Env.first_clock_reading env) [] None)))
  | Fulfilled (ApiResults results) =>
      Fulfilled (respond 200 (Stringified
        (SuccessBody normalizedDomain (Env.first_clock_reading env) results None)))
  end
  end
  end
  end.

Definition handler (env : Env.t) (event : Event.t) : promise (Response.t Item.t) :=
  if String.eqb (Event.httpMethod event) "OPTIONS"
  then Fulfilled (respond 200 EmptyBody)
  else if negb (String.eqb (Event.httpMethod event) "POST")
  then Fulfilled (respond 405 (Stringified (ErrorBody (JString "Method not allowed"))))
  else catch_all true (attempt env event).
End Handler.
End First.

(** ** Second variant *)
Module Second.
Section WithPlatform.
Variable new_URL : string -> option Url.t.
Variable JSON_parse : string -> option json.
Variable request_throws : string -> string -> bool.
Variable net : Req.t -> outcome.
(** For the batch starting at index [i], the order in which its probes settle. *)
Variable settle_order : nat -> list nat.

Definition mutate (link : edge) (a : Acc.t) : Acc.t :=
  let a := Acc.incr a in
  let domainFrom := domain_from link in
  if truthy domainFrom && negb (includes (Acc.referring_domains a) domainFrom)
  then Acc.push_referrer_capped
         {| domain := domainFrom;
            url := js_or (url_from link) (JString "");
            domain_rank := or_zero (domain_from_rank link);
            backlinks := 1 |}
         (Acc.push_domain domainFrom a)
  else a.

(** Body of [for (const link of items)].  On a member of
    [Object.prototype] the increment lands on that member, and
    [.referring_domains.includes] throws when [domainFrom] is truthy. *)
Definition step (st : store) (link : edge) : completion store :=
  let targetUrl := url_to link in
  if negb (truthy targetUrl) then Normal st
  else
    let targetPath := target_path_guarded new_URL targetUrl in
    group_under st targetPath targetUrl (mutate link)
      (if truthy (domain_from link) then Threw TypeError else Normal st).

Definition group (items : list edge) : completion store :=
  run_loop step [] items.

Definition callDataForSEO (reply : provider_reply) : promise (api_result Item.t) :=
  match reply with
  | NoReply => Pending
  | ConnectionFailed => Fulfilled (ApiError (JString "Failed to connect to API"))
  | Unparseable => Fulfilled (ApiError (JString "Failed to parse API response"))
  | Declined status_message =>
      Fulfilled (ApiError (js_or status_message (JString "API error")))
  | Accepted items =>
      match group items with
      | Threw _ => Fulfilled (ApiError (JString "Failed to parse API response"))
      | Normal groupedByTarget =>
          let results := map Item.of_acc (object_values groupedByTarget) in
          let results := js_sort Item.by_backlinks_desc results in
          Fulfilled (ApiResults (slice 0 1000 results))
      end
  end.

(** The [options] object of the HEAD request; [over_https] records the choice
    [parsedUrl.protocol === 'https:' ? https : http]. *)
Definition head_options (parsedUrl : Url.t) : Req.t :=
  let timeout := 8000 in
  {| Req.over_https := String.eqb (Url.protocol parsedUrl) "https:";
     Req.hostname := Url.hostname parsedUrl;
     Req.path := Url.pathname parsedUrl +:+ Url.search parsedUrl;
     Req.method := "HEAD";
     Req.timeout := timeout;
     Req.user_agent :=
       Some "Mozilla/5.0 (compatible; ScreamingFixes/1.0; +https://screamingfixes.com)" |}.

(** The listeners of the fallback request [getReq]. *)
Definition on_get_event (p : promise Z) (e : outcome) : promise Z :=
  match e with
  | Response statusCode => resolve statusCode p
  | ErrorEvent => resolve 0 p
  | TimeoutEvent => resolve 0 p
  end.

(** The listeners of the HEAD request [req]: the ['error'] listener issues
    the GET request and registers its listeners.  Were the call of [request]
    to throw there, the exception would leave the listener and settle
    nothing. *)
Definition on_head_event (options : Req.t) (pr : probe) (e : outcome) : probe :=
  match e with
  | Response statusCode =>
      {| settled := resolve statusCode (settled pr); issued := issued pr |}
  | ErrorEvent =>
      let getReq := Req.with_method "GET" options in
      if request_throws (Req.hostname getReq) (Req.path getReq) then pr
      else
      {| settled := fold_left on_get_event (emitted (net getReq)) (settled pr);
         issued := issued pr ++ [getReq] |}
  | TimeoutEvent =>
      {| settled := resolve 0 (settled pr); issued := issued pr |}
  end.

(** Only [new URL(url)] is inside a [try]: when [protocol.request] throws,
    the executor throws and the promise is rejected. *)
Definition checkUrlStatus (url : string) : probe :=
  match new_URL url with
  | None => {| settled := resolve 0 Pending; issued := [] |}
  | Some parsedUrl =>
      let options := head_options parsedUrl in
      if request_throws (Req.hostname options) (Req.path options)
      then {| settled := Rejected TypeError; issued := [] |}
      else
      fold_left (on_head_event options) (emitted (net options))
        {| settled := Pending; issued := [options] |}
  end.

(** The value of [urlToCheck] once a bare path has been given the domain. *)
Definition url_to_check (domain : string) (item : Item.t) : jsval :=
  let urlToCheck := js_or (Item.target_url item) (Item.dead_page item) in
  if truthy urlToCheck && negb (starts_with urlToCheck "http")
  then JString ("https://" +:+ domain
                +:+ (if starts_with urlToCheck "/" then "" else "/")
                +:+ js_to_string urlToCheck)
  else urlToCheck.

(** The async callback of [batch.map]; [None] is [null]. *)
Definition check (domain : string) (item : Item.t) : promise (option Dead.t) :=
  let urlToCheck := url_to_check domain item in
  if negb (truthy urlToCheck) then Fulfilled None
  else
    match settled (checkUrlStatus (js_to_string urlToCheck)) with
    | Pending => Pending
    | Rejected _ => Fulfilled None
    | Fulfilled status =>
        if (status =? 404) || (status =? 410)
        then
          let dead_page_path :=
            if truthy (Item.dead_page item) then Normal (Item.dead_page item)
            else match new_URL (js_to_string urlToCheck) with
                 | Some u => Normal (JString (Url.pathname u))
                 | None => Threw TypeError
                 end in
          match dead_page_path with
          | Normal path =>
              Fulfilled (Some {| Dead.dead_page := urlToCheck;
                                 Dead.dead_page_path := path;
                                 Dead.status_code := status;
                                 Dead.backlink_count := Item.backlink_count item;
                                 Dead.referring_domains := Item.referring_domains_count item;
                                 Dead.top_referrers := Item.top_referrers item |})
          | Threw _ => Fulfilled None
          end
        else Fulfilled None
    end.

(** [for (let i = 0; i < urlsToCheck.length; i += batchSize)] *)
Equations? batches (domain : string) (urlsToCheck : list Item.t) (i : nat)
    (deadPages : list Dead.t) : promise (list Dead.t)
    by wf (length urlsToCheck - i)%nat lt :=
  batches domain urlsToCheck i deadPages with lt_dec i (length urlsToCheck) => {
    | right _ => Fulfilled deadPages
    | left _ with PromiseAll.all (map (check domain) (slice i (i + 10) urlsToCheck))
                                (settle_order i) => {
        | Pending => Pending
        | Rejected reason => Rejected reason
        | Fulfilled batchResults =>
            batches domain urlsToCheck (i + 10) (deadPages ++ omap id batchResults) } }.
Proof. lia. Qed.

Definition filterDeadPages (results : list Item.t) (domain : string)
    : promise (list Dead.t) :=
  let maxChecks := 100%nat in
  let urlsToCheck := slice 0 maxChecks results in
  match batches domain urlsToCheck 0 [] with
  | Fulfilled deadPages => Fulfilled (js_sort Dead.by_backlinks_desc deadPages)
  | Pending => Pending
  | Rejected reason => Rejected reason
  end.

(** The body of the handler's [try] block; a rejection is a throw. *)
Definition attempt (env : Env.t) (event : Event.t) : promise (Response.t Dead.t) :=
  match JSON_parse (js_to_string (js_or (Event.body event) (JString "{}"))) with
  | None => Rejected SyntaxError
  | Some parsed =>
  match destructure_domain parsed with
  | Threw e => Rejected e
  | Normal domain =>
  if negb (json_truthy domain)
  then Fulfilled (respond 400 (Stringified (ErrorBody (JString "Domain is required"))))
  else
  match lowered domain with
  | Threw e => Rejected e
  | Normal lower =>
  let normalizedDomain := strip_domain lower in
  let login := Env.DATAFORSEO_LOGIN env in
  let password := Env.DATAFORSEO_PASSWORD env in
  if negb (truthy login) || negb (truthy password)
  then Fulfilled (respond 500 (Stringified (ErrorBody (JString "API not configured"))))
  else
  match callDataForSEO (Env.reply env) with
  | Pending => Pending
  | Rejected e => Rejected e
  | Fulfilled (ApiError error) =>
      if truthy error
      then Fulfilled (respond 500 (Stringified (ErrorBody error)))
      else Rejected TypeError   (* apiResult.results.length on undefined *)
  | Fulfilled (ApiResults results) =>
      match filterDeadPages results normalizedDomain with
      | Pending => Pending
      | Rejected e => Rejected e
      | Fulfilled deadPages =>
          Fulfilled (respond 200 (Stringified
            (SuccessBody normalizedDomain (Env.first_clock_reading env) deadPages
               (Some {| total_urls_from_api := length results;
                        urls_checked := Nat.min (length results) 100;
                        dead_pages_found := length deadPages |}))))
      end
  end
  end
  end
  end.

Definition handler (env : Env.t) (event : Event.t) : promise (Response.t Dead.t) :=
  if String.eqb (Event.httpMethod event) "OPTIONS"
  then Fulfilled (respond 200 EmptyBody)
  else if negb (String.eqb (Event.httpMethod event) "POST")
  then Fulfilled (respond 405 (Stringified (ErrorBody (JString "Method not allowed"))))
  else catch_all true (attempt env event).
End WithPlatform.
End Second.

(** ** Public variant *)
Module Public.
Section WithPlatform.
Variable new_URL : string -> option Url.t.
Variable JSON_parse : string -> option json.
Variable request_throws : string -> string -> bool.
Variable net : Req.t -> outcome.

Definition mutate (link : edge) (a : Acc.t) : Acc.t :=
  Acc.push_referrer_capped
    {| domain := domain_from link;
       url := url_from link;
       domain_rank := or_zero (domain_from_rank link);
       backlinks := 1 |}
    (add_domain (domain_from link) (Acc.incr a)).

(** Body of [for (const link of backlinks)]: [new URL(targetUrl).pathname]
    is not guarded.  On a member of [Object.prototype] the call
    [.referring_domains.add] throws. *)
Definition step (st : store) (link : edge) : completion store :=
  let targetUrl := url_to link in
  match new_URL (js_to_string targetUrl) with
  | None => Threw TypeError
  | Some u =>
      let targetPath := JString (Url.pathname u) in
      group_under st targetPath targetUrl (mutate link) (Threw TypeError)
  end.

Definition group (backlinks : list edge) : completion store :=
  run_loop step [] backlinks.

(** The listeners of the HEAD request. *)
Definition on_event (p : promise Z) (e : outcome) : promise Z :=
  match e with
  | Response statusCode => resolve statusCode p
  | ErrorEvent => resolve 0 p
  | TimeoutEvent => resolve 0 p
  end.

(** The whole executor runs inside [try { ... } catch { resolve(0) }]: a
    throw of [new URL] or of [https.request] resolves 0. *)
Definition checkUrlStatus (url : string) : probe :=
  match new_URL url with
  | None => {| settled := resolve 0 Pending; issued := [] |}
  | Some urlObj =>
      let options :=
        {| Req.over_https := true;
           Req.hostname := Url.hostname urlObj;
           Req.path := Url.pathname urlObj +:+ Url.search urlObj;
           Req.method := "HEAD";
           Req.timeout := 5000;
           Req.user_agent := None |} in
      if request_throws (Req.hostname options) (Req.path options)
      then {| settled := resolve 0 Pending; issued := [] |}
      else
      {| settled := fold_left on_event (emitted (net options)) Pending;
         issued := [options] |}
  end.

(** [for (const item of targetUrls.slice(0, 100))], with [status || 404]
    stored as the item's status code. *)
Fixpoint check_each (items : list Acc.t) (results : list Marked.t)
    : promise (list Marked.t) :=
  match items with
  | [] => Fulfilled results
  | item :: rest =>
      match settled (checkUrlStatus (js_to_string (Acc.target_url item))) with
      | Pending => Pending
      | Rejected e => Rejected e
      | Fulfilled status =>
          if (status =? 404) || (status =? 410) || (status =? 0)
          then check_each rest
                 (results ++ [Marked.mark (if status =? 0 then 404 else status) item])
          else check_each rest results
      end
  end.

Definition callDataForSEO (reply : provider_reply) : promise (api_result Marked.t) :=
  match reply with
  | NoReply => Pending
  | ConnectionFailed => Fulfilled (ApiError (JString "Failed to connect to API"))
  | Unparseable => Fulfilled (ApiError (JString "Failed to parse API response"))
  | Declined status_message =>
      Fulfilled (ApiError (js_or status_message (JString "API error")))
  | Accepted backlinks =>
      match group backlinks with
      | Threw _ => Fulfilled (ApiError (JString "Failed to parse API response"))
      | Normal groupedByTarget =>
          let targetUrls := object_values groupedByTarget in
          match check_each (slice 0 100 targetUrls) [] with
          | Pending => Pending
          | Rejected _ => Fulfilled (ApiError (JString "Failed to parse API response"))
          | Fulfilled results =>
              let results := js_sort Marked.by_backlinks_desc results in
              Fulfilled (ApiResults (slice 0 1000 results))
          end
      end
  end.

(** [`${normalizedDomain}-${today}`] *)
Definition rateLimitKey (normalizedDomain today : string) : string :=
  normalizedDomain +:+ "-" +:+ today.

(** The response returned when [rateLimitCache.has(rateLimitKey)]. *)
Definition rate_limited : Response.t Marked.t :=
  respond 429 (Stringified
    (RateLimitBody "Rate limit exceeded"
       "Free scan limit reached for this domain. Try again tomorrow or add your own DataForSEO API key."
       "tomorrow")).

(** The body of the handler's [try] block, threading [rateLimitCache]. *)
Definition attempt (rateLimitCache : gmap string bool) (env : Env.t) (event : Event.t)
    : promise (Response.t Marked.t) * gmap string bool :=
  match JSON_parse (js_to_string (js_or (Event.body event) (JString "{}"))) with
  | None => (Rejected SyntaxError, rateLimitCache)
  | Some parsed =>
  match destructure_domain parsed with
  | Threw e => (Rejected e, rateLimitCache)
  | Normal domain =>
  if negb (json_truthy domain)
  then (Fulfilled (respond 400 (Stringified (ErrorBody (JString "Domain is required")))),
        rateLimitCache)
  else
  match lowered domain with
  | Threw e => (Rejected e, rateLimitCache)
  | Normal lower =>
  let normalizedDomain := strip_domain lower in
  let today := before_first "T" (Env.first_clock_reading env) in
  let key := rateLimitKey normalizedDomain today in
  if bool_decide (is_Some (rateLimitCache !! key))
  then (Fulfilled rate_limited, rateLimitCache)
  else
  let login := Env.DATAFORSEO_LOGIN env in
  let password := Env.DATAFORSEO_PASSWORD env in
  if negb (truthy login) || negb (truthy password)
  then (Fulfilled (respond 500 (Stringified (ErrorBody (JString "API not configured")))),
        rateLimitCache)
  else
  match callDataForSEO (Env.reply env) with
  | Pending => (Pending, rateLimitCache)
  | Rejected e => (Rejected e, rateLimitCache)
  | Fulfilled (ApiError error) =>
      if truthy error
      then (Fulfilled (respond 500 (Stringified (ErrorBody error))), rateLimitCache)
      else (* apiResult.results is undefined *)
           (Fulfilled (respond 200 (Stringified
              (SuccessBody normalizedDomain (Env.second_clock_reading env) [] None))),
            <[key := true]> rateLimitCache)
  | Fulfilled (ApiResults results) =>
      (Fulfilled (respond 200 (Stringified
         (SuccessBody normalizedDomain (Env.second_clock_reading env) results None))),
       <[key := true]> rateLimitCache)
  end
  end
  end
  end.

Definition handler (rateLimitCache : gmap string bool) (env : Env.t) (event : Event.t)
    : promise (Response.t Marked.t) * gmap string bool :=
  if String.eqb (Event.httpMethod event) "OPTIONS"
  then (Fulfilled (respond 200 EmptyBody), rateLimitCache)
  else if negb (String.eqb (Event.httpMethod event) "POST")
  then (Fulfilled (respond 405 (Stringified (ErrorBody (JString "Method not allowed")))),
        rateLimitCache)
  else
    let (result, cache) := attempt rateLimitCache env event in
    (catch_all false result, cache).
End WithPlatform.
End Public.

(** ** Regular expressions over code units

    A matcher by derivatives, for the anchored pattern of subscribe.js. *)

Inductive regex :=
| Never
| Empty
| Class (accepts : ascii -> bool)
| Seq (r s : regex)
| Alt (r s : regex)
| Star (r : regex).

(** [r+] *)
Definition plus (r : regex) : regex := Seq r (Star r).

Fixpoint nullable (r : regex) : bool :=
  match r with
  | Never => false
  | Empty => true
  | Class _ => false
  | Seq r s => nullable r && nullable s
  | Alt r s => nullable r || nullable s
  | Star _ => true
  end.

Fixpoint derivative (c : ascii) (r : regex) : regex :=
  match r with
  | Never => Never
  | Empty => Never
  | Class accepts => if accepts c then Empty else Never
  | Seq r s =>
      if nullable r
      then Alt (Seq (derivative c r) s) (derivative c s)
      else Seq (derivative c r) s
  | Alt r s => Alt (derivative c r) (derivative c s)
  | Star r => Seq (derivative c r) (Star r)
  end.

(** [/^r$/.test(s)] *)
Fixpoint test (r : regex) (s : string) : bool :=
  match s with
  | EmptyString => nullable r
  | String c rest => test (derivative c r) rest
  end.

(** [\s] on code units below 256: TAB, LF, VT, FF, CR, space and
    no-break space. *)
Definition is_space (c : ascii) : bool :=
  let n := nat_of_ascii c in
  ((9 <=? n) && (n <=? 13) || (n =? 32) || (n =? 160))%nat.

(** [[^\s@]] *)
Definition address_char (c : ascii) : bool :=
  negb (is_space c) && negb (Ascii.eqb c "@").

(** The pattern [^[^\s@]+@[^\s@]+\.[^\s@]+$] *)
Definition email_pattern : regex :=
  Seq (plus (Class address_char))
    (Seq (Class (Ascii.eqb "@"))
       (Seq (plus (Class address_char))
          (Seq (Class (Ascii.eqb "."))
             (plus (Class address_char))))).

(** ** subscribe.js *)
Module Subscribe.

(** What [fetch] and then [response.json()] do. *)
Inductive fetch_outcome :=
| NoAnswer                                    (* the promise of fetch never settles *)
| FetchRejected                               (* network failure *)
| Answered (status : Z) (json_body : bool).   (* response.json() throws unless json_body *)

(** The call made to the MailerLite API. *)
Record request := {
  authorization : string;
  email : json;
  groups : list string;
  status : string
}.

Inductive payload :=
| ErrorBody (error : string)
| Success
| AlreadySubscribed.

Inductive body_text :=
| NoBody
| Stringified (p : payload).

Record response := {
  statusCode : Z;
  headers : list (string * string);
  body : body_text
}.

Definition cors_headers : list (string * string) :=
  [ ("Access-Control-Allow-Origin", "https://screamingfixes.com");
    ("Access-Control-Allow-Headers", "Content-Type");
    ("Access-Control-Allow-Methods", "POST, OPTIONS");
    ("Content-Type", "application/json") ]%string.

(** [const { name } = value]: throws on [null]. *)
Definition destructure (name : string) (value : json) : completion (option json) :=
  match value with
  | JsonNull => Threw TypeError
  | JsonObject members => Normal (member name members)
  | _ => Normal None
  end.

(** [response.ok] *)
Definition ok (status : Z) : bool := (200 <=? status) && (status <=? 299).

Section WithPlatform.
Variable JSON_parse : string -> option json.
(** ToString of a value that is not a string. *)
Variable to_string : json -> string.
Variable fetch : request -> fetch_outcome.

(** [pattern.test(email)] *)
Definition email_matches (email : json) : bool :=
  test email_pattern
    (match email with
     | JsonString s => s
     | other => to_string other
     end).

(** The body of the [try] block; a rejection is a throw. *)
Definition attempt (API_KEY : jsval) (event : Event.t) : promise response :=
  match JSON_parse (js_to_string (Event.body event)) with
  | None => Rejected SyntaxError
  | Some parsed =>
  match destructure "email" parsed with
  | Threw e => Rejected e
  | Normal None =>
      Fulfilled {| statusCode := 400; headers := cors_headers;
                   body := Stringified (ErrorBody "Invalid email address") |}
  | Normal (Some email) =>
  if negb (json_truthy (Some email)) || negb (email_matches email)
  then Fulfilled {| statusCode := 400; headers := cors_headers;
                    body := Stringified (ErrorBody "Invalid email address") |}
  else
  match destructure "website" parsed with
  | Threw e => Rejected e
  | Normal website =>
  if json_truthy website
  then Fulfilled {| statusCode := 200; headers := cors_headers;
                    body := Stringified Success |}
  else
  if negb (truthy API_KEY)
  then Fulfilled {| statusCode := 500; headers := cors_headers;
                    body := Stringified (ErrorBody "Server configuration error") |}
  else
  let GROUP_ID := "178597163422450957"%string in
  match fetch {| authorization := "Bearer " +:+ js_to_string API_KEY;
                 email := email;
                 groups := [GROUP_ID];
                 status := "active" |} with
  | NoAnswer => Pending
  | FetchRejected => Rejected TypeError
  | Answered status json_body =>
      if negb json_body then Rejected SyntaxError
      else if ok status
      then Fulfilled {| statusCode := 200; headers := cors_headers;
                        body := Stringified Success |}
      else if (status =? 422) || (status =? 409)
      then Fulfilled {| statusCode := 200; headers := cors_headers;
                        body := Stringified AlreadySubscribed |}
      else Fulfilled {| statusCode := 500; headers := cors_headers;
                        body := Stringified (ErrorBody "Subscription failed") |}
  end
  end
  end
  end.

Definition handler (API_KEY : jsval) (event : Event.t) : promise response :=
  if negb (String.eqb (Event.httpMethod event) "POST")
  then Fulfilled {| statusCode := 405;
                    headers := [("Content-Type", "application/json")]%string;
                    body := Stringified (ErrorBody "Method not allowed") |}
  else if String.eqb (Event.httpMethod event) "OPTIONS"
  then Fulfilled {| statusCode := 204; headers := cors_headers; body := NoBody |}
  else
    match attempt API_KEY event with
    | Rejected _ =>
        Fulfilled {| statusCode := 500; headers := cors_headers;
                     body := Stringified (ErrorBody "Server error") |}
    | other => other
    end.
End WithPlatform.
End Subscribe.

(** ** A parser instance for the examples

    It accepts absolute [http://] and [https://] URLs written in lower case
    without credentials, port or fragment, and rejects every other string; on
    the strings used below it agrees with the platform's [URL]. *)

Fixpoint break_at (stop : ascii -> bool) (s : string) : string * string :=
  match s with
  | EmptyString => (EmptyString, EmptyString)
  | String c rest =>
      if stop c then (EmptyString, s)
      else let (a, b) := break_at stop rest in (String c a, b)
  end.

Definition parse_after_scheme (scheme rest : string) : option Url.t :=
  let (host, tail) :=
    break_at (fun c => Ascii.eqb c "/" || Ascii.eqb c "?")%bool rest in
  let (path, query) := break_at (fun c => Ascii.eqb c "?") tail in
  if String.eqb host "" then None
  else Some {| Url.protocol := scheme;
               Url.hostname := host;
               Url.pathname := if String.eqb path "" then "/" else path;
               Url.search := if String.eqb query "?" then "" else query |}.

Definition example_URL (s : string) : option Url.t :=
  if String.prefix "https://" s
  then parse_after_scheme "https:" (String.substring 8 (String.length s - 8) s)
  else if String.prefix "http://" s
  then parse_after_scheme "http:" (String.substring 7 (String.length s - 7) s)
  else None.

Definition backlink (to from dom : string) : edge :=
  {| url_to := JString to; url_from := JString from;
     domain_from := JString dom; domain_from_rank := Some 10 |}.

Definition scenario_edges : list edge :=
  [ backlink "https://example.com/a" "https://one.test/x" "one.test";
    backlink "https://example.com/a" "https://one.test/y" "one.test";
    backlink "https://example.com/b" "https://two.test/z" "two.test";
    backlink "https://example.com/a" "https://two.test/w" "two.test" ].


Definition edge_without_target : edge :=
  {| url_to := JUndefined; url_from := JString "https://one.test/x";
     domain_from := JString "one.test"; domain_from_rank := Some 10 |}.

Definition mixed_edges : list edge :=
  scenario_edges
  ++ [ edge_without_target;
       backlink "/old-page" "https://one.test/x" "one.test";
       backlink "/old-page" "https://one.test/x" "one.test" ].

(** Settling orders, networks and requests for the examples. *)

Definition in_order (i : nat) : list nat := seq 0 10.

Definition reversed (i : nat) : list nat := rev (seq 0 10).

(** The call of [request] refuses a path that holds a space or a control
    character. *)
Definition refuses_unescaped (hostname path : string) : bool :=
  negb (forallb (fun c => (33 <=? nat_of_ascii c)%nat) (list_ascii_of_string path)).

(** A parser that also knows one URL with a scheme of its own, whose path is
    kept as written. *)
Definition lenient_URL (s : string) : option Url.t :=
  if String.eqb s "httpx:a b"
  then Some {| Url.protocol := "httpx:"; Url.hostname := "";
               Url.pathname := "a b"; Url.search := "" |}
  else example_URL s.

(** Every request to the host fails: HEAD with an error, GET with a timeout. *)
Definition unreachable (r : Req.t) : outcome :=
  if String.eqb (Req.method r) "HEAD" then ErrorEvent else TimeoutEvent.

(** HEAD requests time out although a GET would be answered with 200. *)
Definition head_times_out (r : Req.t) : outcome :=
  if String.eqb (Req.method r) "HEAD" then TimeoutEvent else Response 200.

(** HEAD requests are reset by the server, GET requests are answered with 404. *)
Definition head_refused (r : Req.t) : outcome :=
  if String.eqb (Req.method r) "HEAD" then ErrorEvent else Response 404.

(** [/a] is gone, [/b] is live, everything else is unreachable. *)
Definition example_net (r : Req.t) : outcome :=
  if String.eqb (Req.path r) "/a" then Response 404
  else if String.eqb (Req.path r) "/b" then Response 200
  else unreachable r.

Definition item_a : Item.t :=
  {| Item.dead_page := JString "/a";
     Item.target_url := JString "https://example.com/a";
     Item.backlink_count := 3;
     Item.top_referrers := [];
     Item.status_code := None;
     Item.referring_domains_count := 2 |}.


(** A stand-in for [JSON.parse] on the two request bodies of the examples. *)
Definition example_JSON_parse (s : string) : option json :=
  if String.eqb s "{}" then Some (JsonObject [])
  else if String.eqb s "example"
  then Some (JsonObject [("domain"%string, JsonString "https://Example.com/")])
  else None.

Definition example_env (reply : provider_reply) (now : string) : Env.t :=
  {| Env.DATAFORSEO_LOGIN := JString "login";
     Env.DATAFORSEO_PASSWORD := JString "password";
     Env.reply := reply;
     Env.first_clock_reading := now;
     Env.second_clock_reading := now |}.

Definition post (body : string) : Event.t :=
  {| Event.httpMethod := "POST"; Event.body := JString body |}.

Definition preflight : Event.t :=
  {| Event.httpMethod := "OPTIONS"; Event.body := JUndefined |}.

(** An item that only has a relative path. *)
Definition item_bare_path : Item.t :=
  {| Item.dead_page := JString "old/page";
     Item.target_url := JNull;
     Item.backlink_count := 1;
     Item.top_referrers := [];
     Item.status_code := None;
     Item.referring_domains_count := 1 |}.

(** ** Vocabulary of the properties *)

(** The invariant of an accumulator of the second variant: its referring
    domains are distinct and its top referrers number at most ten and at most
    as many as the domains. *)
Definition referrers_bounded (a : Acc.t) : Prop :=
  NoDup (Acc.referring_domains a)
  /\ (length (Acc.top_referrers a)
      <= Nat.min 10 (length (Acc.referring_domains a)))%nat.

(** Non-increasing in [key]. *)
Definition ranked {A : Type} (key : A -> nat) (l : list A) : Prop :=
  StronglySorted (fun a b => (key b <= key a)%nat) l.

(** A settling order is fair when each probe of a batch of ten settles. *)
Definition fair (settle_order : nat -> list nat) : Prop :=
  forall i j, (j < 10)%nat -> In j (settle_order i).

Section PromiseAllVocabulary.
Context {A : Type}.

(** Number of slots of [Promise.all] that are still empty. *)
Definition vacancies (slots : list (option A)) : nat :=
  length (List.filter (fun o => match o with None => true | Some _ => false end) slots).

(** Each slot is empty or holds the value of its input. *)
Definition partly_filled (vs : list A) (slots : list (option A)) : Prop :=
  length slots = length vs
  /\ forall i v, vs !! i = Some v ->
       slots !! i = Some None \/ slots !! i = Some (Some v).

(** What holds of the combinator's state while the inputs [Fulfilled <$> vs]
    settle in any order. *)
Definition all_invariant (vs : list A) (s : PromiseAll.state) : Prop :=
  partly_filled vs (PromiseAll.values s)
  /\ PromiseAll.remaining s = vacancies (PromiseAll.values s)
  /\ PromiseAll.result s
     = if (vacancies (PromiseAll.values s) =? 0)%nat then Fulfilled vs else Pending.
End PromiseAllVocabulary.

Section ProbeVocabulary.
Variable new_URL : string -> option Url.t.
Variable request_throws : string -> string -> bool.
Variable net : Req.t -> outcome.

(** The row that [check] produces for an item, [None] standing for [null]. *)
Definition check_value (site : string) (item : Item.t) : option Dead.t :=
  match Second.check new_URL request_throws net site item with
  | Fulfilled row => row
  | _ => None
  end.

(** What [filterDeadPages] resolves with. *)
Definition dead_rows (results : list Item.t) (site : string) : list Dead.t :=
  js_sort Dead.by_backlinks_desc (omap (check_value site) (firstn 100 results)).
End ProbeVocabulary.

(** The rate-limit key of a scan of domain [d] in environment [env]. *)
Definition limiter_key (d : string) (env : Env.t) : string :=
  Public.rateLimitKey (strip_domain (toLowerCase d))
    (before_first "T" (Env.first_clock_reading env)).

(** Every code unit of [s] satisfies [P]. *)
Fixpoint string_all (P : ascii -> bool) (s : string) : bool :=
  match s with
  | EmptyString => true
  | String c rest => P c && string_all P rest
  end.

(** An upper-case letter among the code units below 256. *)
Definition is_upper (c : ascii) : bool :=
  let n := nat_of_ascii c in
  ((65 <=? n) && (n <=? 90)
   || (192 <=? n) && (n <=? 222) && negb (n =? 215))%nat.

Definition not_char (x : ascii) (c : ascii) : bool := negb (Ascii.eqb c x).

(** What holds of an accumulator at any time: its referring domains are
    distinct and no more numerous than its backlinks. *)
Definition domains_counted (a : Acc.t) : Prop :=
  NoDup (Acc.referring_domains a)
  /\ (length (Acc.referring_domains a) <= Acc.backlink_count a)%nat.

(** What holds of an own property of [groupedByTarget]: it is stored under
    the string of its [dead_page] and has counted at least one backlink. *)
Definition aggregate_sound (p : string * Acc.t) : Prop :=
  js_to_string (Acc.dead_page (snd p)) = fst p
  /\ (1 <= Acc.backlink_count (snd p))%nat
  /\ domains_counted (snd p).

Definition grouped (st : store) : Prop :=
  NoDup (map fst st) /\ Forall aggregate_sound st.

(** A mutation of the grouping loops: it keeps [dead_page], counts one
    backlink and adds at most one referring domain, a new one. *)
Definition counts_one (f : Acc.t -> Acc.t) : Prop :=
  forall a,
    Acc.dead_page (f a) = Acc.dead_page a
    /\ Acc.backlink_count (f a) = S (Acc.backlink_count a)
    /\ (domains_counted a -> domains_counted (f a)).

(** The top referrers of the second variant are the first ten referring
    domains, all of them truthy. *)
Definition top_are_first_domains (a : Acc.t) : Prop :=
  map domain (Acc.top_referrers a) = firstn 10 (Acc.referring_domains a)
  /\ Forall (fun d => truthy d = true) (Acc.referring_domains a).

(** The top referrers of the first and public variants are as many as the
    backlinks, up to ten. *)
Definition top_are_first_links (a : Acc.t) : Prop :=
  length (Acc.top_referrers a) = Nat.min 10 (Acc.backlink_count a).

(** The strings a pattern denotes. *)
Inductive matches : regex -> string -> Prop :=
| matches_empty : matches Empty EmptyString
| matches_class accepts c : accepts c = true -> matches (Class accepts) (String c EmptyString)
| matches_seq r s u v : matches r u -> matches s v -> matches (Seq r s) (u +:+ v)
| matches_left r s u : matches r u -> matches (Alt r s) u
| matches_right r s u : matches s u -> matches (Alt r s) u
| matches_none r : matches (Star r) EmptyString
| matches_more r u v : matches r u -> matches (Star r) v -> matches (Star r) (u +:+ v).

(** Stand-ins for the platform of subscribe.js: [JSON.parse] on the bodies
    of a reader and of a bot, and a provider that answers every call alike. *)
Definition signup_JSON_parse (s : string) : option json :=
  if String.eqb s "reader"
  then Some (JsonObject [("email"%string, JsonString "reader@example.com")])
  else if String.eqb s "bot"
  then Some (JsonObject [("email"%string, JsonString "bot@example.com");
                         ("website"%string, JsonString "https://spam.example")])
  else None.

Definition example_to_string (v : json) : string :=
  match v with
  | JsonString s => s
  | _ => "[object Object]"
  end.

Definition provider_answers (status : Z) (json_body : bool)
    : Subscribe.request -> Subscribe.fetch_outcome :=
  fun _ => Subscribe.Answered status json_body.

(** * Properties *)

Local Open Scope nat_scope.
#[local] Arguments Nat.min : simpl never.

(** ** Scenarios *)

Example normalizes_example_domain :
  strip_domain (toLowerCase "https://Example.com/") = "example.com"%string
  /\ strip_domain (toLowerCase "HTTP://www.Example.com/a/b/") = "example.com"%string.
Proof. split; reflexivity. Qed.

(** Three edges to [/a] from two domains and one edge to [/b]. *)
Example scenario_grouping :
  exists a b,
    Second.group example_URL scenario_edges = Normal [("/a"%string, a); ("/b"%string, b)]
    /\ Acc.backlink_count a = 3 /\ length (Acc.referring_domains a) = 2
    /\ Acc.backlink_count b = 1 /\ length (Acc.referring_domains b) = 1.
Proof. eexists. eexists. repeat split; reflexivity. Qed.

(** [/a] probes to 404 and [/b] to 200: one row, for [/a]. *)
Example scenario_ranking :
  exists results row,
    Second.callDataForSEO example_URL (Accepted scenario_edges)
    = Fulfilled (ApiResults results)
    /\ Second.filterDeadPages example_URL refuses_unescaped example_net in_order results
        "example.com"
       = Fulfilled [row]
    /\ Dead.dead_page_path row = JString "/a"
    /\ Dead.status_code row = 404%Z
    /\ Dead.backlink_count row = 3
    /\ Dead.referring_domains row = 2.
Proof. eexists. eexists. repeat split; reflexivity. Qed.

(** Keys that are array indices come first, in numeric order. *)
Example object_values_order :
  map Acc.dead_page
    (object_values
       [ ("/a"%string, Acc.fresh (JString "/a") JNull);
         ("10"%string, Acc.fresh (JString "10") JNull);
         ("9"%string, Acc.fresh (JString "9") JNull);
         ("007"%string, Acc.fresh (JString "007") JNull) ])
  = [JString "9"; JString "10"; JString "/a"; JString "007"].
Proof. reflexivity. Qed.

(** A target whose raw string names a member of [Object.prototype] is not an
    own key: the first variant throws on it, the second throws when the
    source domain is given and otherwise loses the edge. *)
Example inherited_key_is_not_grouped :
  First.group example_URL [backlink "constructor" "https://one.test/x" "one.test"]
  = Threw TypeError
  /\ Second.group example_URL [backlink "constructor" "https://one.test/x" "one.test"]
     = Threw TypeError
  /\ Second.group example_URL
       [{| url_to := JString "constructor"; url_from := JNull;
           domain_from := JNull; domain_from_rank := None |}]
     = Normal [].
Proof. repeat split; reflexivity. Qed.

(** ** The store *)

Lemma total_backlinks_app (st1 st2 : store) :
  total_backlinks (st1 ++ st2) = total_backlinks st1 + total_backlinks st2.
Proof.
  unfold total_backlinks. rewrite map_app, list_sum_app. reflexivity.
Qed.

Lemma total_backlinks_update (st : store) k f a :
  own_lookup st k = Some a ->
  total_backlinks (own_update st k f) + Acc.backlink_count a
  = total_backlinks st + Acc.backlink_count (f a).
Proof.
  unfold total_backlinks.
  induction st as [|[k' b] st IH]; simpl; [discriminate|].
  destruct (String.eqb k' k); simpl.
  - intros [= ->]. lia.
  - intros H. specialize (IH H). lia.
Qed.

(** A grouping step whose mutation bumps the counter adds one to the total,
    unless the key is shadowed by [Object.prototype]. *)
Lemma group_under_total (st : store) targetPath targetUrl f on_inherited :
  (forall a, Acc.backlink_count (f a) = S (Acc.backlink_count a)) ->
  inherited (js_to_string targetPath) = false ->
  exists st', group_under st targetPath targetUrl f on_inherited = Normal st'
              /\ total_backlinks st' = S (total_backlinks st).
Proof.
  intros Hf Hk. unfold group_under, get_property. rewrite Hk.
  destruct (own_lookup st (js_to_string targetPath)) as [a|] eqn:Hl.
  - eexists. split; [reflexivity|].
    pose proof (total_backlinks_update st _ f a Hl) as H.
    rewrite Hf in H. lia.
  - eexists. split; [reflexivity|].
    unfold own_insert. rewrite total_backlinks_app.
    unfold total_backlinks at 2. simpl. rewrite Hf. simpl. lia.
Qed.

Lemma first_mutate_count link a :
  Acc.backlink_count (First.mutate link a) = S (Acc.backlink_count a).
Proof.
  unfold First.mutate, add_domain. simpl.
  destruct (includes _ _); reflexivity.
Qed.

Lemma second_mutate_count link a :
  Acc.backlink_count (Second.mutate link a) = S (Acc.backlink_count a).
Proof.
  unfold Second.mutate.
  destruct (truthy (domain_from link) && _); reflexivity.
Qed.

Section GroupingTotals.
Variable new_URL : string -> option Url.t.

Lemma first_run_total (backlinks : list edge) : forall st,
  Forall (fun link => inherited (grouping_key new_URL link) = false) backlinks ->
  exists st', run_loop (First.step new_URL) st backlinks = Normal st'
              /\ total_backlinks st' = total_backlinks st + length backlinks.
Proof.
  induction backlinks as [|link rest IH]; intros st Hall; simpl.
  - exists st. split; [reflexivity|lia].
  - inversion Hall as [|? ? Hk Hrest]; subst.
    unfold First.step at 1.
    destruct (group_under_total st (target_path_guarded new_URL (url_to link))
                (url_to link) (First.mutate link) (Threw TypeError)
                (first_mutate_count link) Hk) as (st1 & -> & Ht).
    destruct (IH st1 Hrest) as (st' & -> & Ht').
    exists st'. split; [reflexivity|lia].
Qed.

Lemma second_run_total (items : list edge) : forall st,
  Forall (fun link => inherited (grouping_key new_URL link) = false) items ->
  exists st', run_loop (Second.step new_URL) st items = Normal st'
              /\ total_backlinks st'
                 = total_backlinks st
                   + length (List.filter (fun link => truthy (url_to link)) items).
Proof.
  induction items as [|link rest IH]; intros st Hall; simpl.
  - exists st. split; [reflexivity|lia].
  - inversion Hall as [|? ? Hk Hrest]; subst.
    unfold Second.step at 1.
    destruct (truthy (url_to link)) eqn:Ht; simpl.
    + destruct (group_under_total st (target_path_guarded new_URL (url_to link))
                  (url_to link) (Second.mutate link)
                  (if truthy (domain_from link) then Threw TypeError else Normal st)
                  (second_mutate_count link) Hk) as (st1 & -> & Ht1).
      destruct (IH st1 Hrest) as (st' & -> & Ht').
      exists st'. split; [reflexivity|lia].
    + destruct (IH st Hrest) as (st' & -> & Ht').
      exists st'. split; [reflexivity|lia].
Qed.
End GroupingTotals.

(** ** Backlink totals (C1) *)

(** C1, as stated, fails on the second variant: a single edge whose target
    URL is missing is skipped by [if (!targetUrl) continue], so the sum of
    [backlink_count] is 0 while one edge was given. *)
Lemma second_group_skips_edge_without_target :
  Second.group example_URL [edge_without_target] = Normal []
  /\ total_backlinks [] <> length [edge_without_target].
Proof.
  split; [reflexivity|]. simpl. discriminate.
Qed.

(** C1, amended.  For every list of raw edges whose grouping keys are not
    names inherited from [Object.prototype], both grouping loops complete;
    in the first variant the sum of [backlink_count] over the aggregates is
    the number of input edges, and in the second variant it is the number of
    input edges whose target URL is present and non-empty.  Repeat edges from
    one source domain and edges with an unparseable target URL are counted
    once each. *)
Theorem backlink_total_counts_every_grouped_edge
    (new_URL : string -> option Url.t) (edges : list edge) :
  Forall (fun link => inherited (grouping_key new_URL link) = false) edges ->
  (exists st, First.group new_URL edges = Normal st
              /\ total_backlinks st = length edges)
  /\ (exists st, Second.group new_URL edges = Normal st
                 /\ total_backlinks st
                    = length (List.filter (fun link => truthy (url_to link)) edges)).
Proof.
  intros Hall. split.
  - destruct (first_run_total new_URL edges [] Hall) as (st & H & Ht).
    exists st. split; [exact H|]. rewrite Ht. reflexivity.
  - destruct (second_run_total new_URL edges [] Hall) as (st & H & Ht).
    exists st. split; [exact H|]. rewrite Ht. reflexivity.
Qed.

Lemma backlink_total_witness :
  (exists st, First.group example_URL mixed_edges = Normal st
              /\ total_backlinks st = length mixed_edges)
  /\ (exists st, Second.group example_URL mixed_edges = Normal st
                 /\ total_backlinks st
                    = length (List.filter (fun link => truthy (url_to link)) mixed_edges)).
Proof.
  apply (backlink_total_counts_every_grouped_edge example_URL mixed_edges).
  repeat constructor.
Defined.

(** ** Top referrers (C3) *)

Lemma includes_In (l : list jsval) (v : jsval) : includes l v = true <-> In v l.
Proof.
  unfold includes. rewrite existsb_exists. split.
  - intros (w & Hw & Heq). apply bool_decide_eq_true in Heq. subst. exact Hw.
  - intros Hin. exists v. split; [exact Hin|]. apply bool_decide_eq_true. reflexivity.
Qed.

Lemma fresh_referrers_bounded targetPath targetUrl :
  referrers_bounded (Acc.fresh targetPath targetUrl).
Proof. split; simpl; [constructor|lia]. Qed.

Lemma second_mutate_referrers_bounded link a :
  referrers_bounded a -> referrers_bounded (Second.mutate link a).
Proof.
  intros [Hnd Hlen]. unfold Second.mutate. cbv zeta.
  destruct (truthy (domain_from link)); simpl; [|split; assumption].
  destruct (includes (Acc.referring_domains a) (domain_from link)) eqn:Hin; simpl;
    [split; assumption|].
  split; simpl.
  - apply NoDup_app. split; [exact Hnd|]. split.
    + intros x Hx [<-|[]]%list_elem_of_In.
      apply list_elem_of_In, includes_In in Hx. congruence.
    + apply NoDup_singleton.
  - destruct (length (Acc.top_referrers a) <? 10) eqn:Hlt.
    + apply Nat.ltb_lt in Hlt. rewrite !length_app. simpl. lia.
    + apply Nat.ltb_ge in Hlt. rewrite length_app. simpl. lia.
Qed.

Lemma own_update_Forall (P : Acc.t -> Prop) (st : store) k f :
  (forall a, P a -> P (f a)) ->
  Forall (fun p => P (snd p)) st -> Forall (fun p => P (snd p)) (own_update st k f).
Proof.
  intros Hf. induction 1 as [|[k' a] st Ha Hst IH]; simpl; [constructor|].
  destruct (String.eqb k' k); constructor; simpl in *; auto.
Qed.

Lemma group_under_Forall (P : Acc.t -> Prop) (st st' : store)
    targetPath targetUrl f on_inherited :
  (forall a, P a -> P (f a)) ->
  P (Acc.fresh targetPath targetUrl) ->
  (forall st'', on_inherited = Normal st'' -> st'' = st) ->
  Forall (fun p => P (snd p)) st ->
  group_under st targetPath targetUrl f on_inherited = Normal st' ->
  Forall (fun p => P (snd p)) st'.
Proof.
  intros Hf Hfresh Hinh Hst. unfold group_under.
  destruct (get_property st (js_to_string targetPath)).
  - intros [= <-]. apply own_update_Forall; assumption.
  - intros H. rewrite (Hinh _ H). exact Hst.
  - intros [= <-]. unfold own_insert. apply Forall_app. split; [exact Hst|].
    constructor; [|constructor]. simpl. apply Hf, Hfresh.
Qed.

(** In the second variant every aggregate keeps at most ten top referrers and
    never more than it has distinct referring domains. *)
Lemma second_group_referrers_bounded (new_URL : string -> option Url.t)
    (items : list edge) (st : store) :
  Second.group new_URL items = Normal st ->
  Forall (fun p => referrers_bounded (snd p)) st.
Proof.
  unfold Second.group.
  assert (Hgen : forall st0, Forall (fun p => referrers_bounded (snd p)) st0 ->
            run_loop (Second.step new_URL) st0 items = Normal st ->
            Forall (fun p => referrers_bounded (snd p)) st).
  { induction items as [|link rest IH]; intros st0 H0; simpl.
    - intros [= <-]. exact H0.
    - destruct (Second.step new_URL st0 link) as [st1|] eqn:Hstep; [|discriminate].
      apply IH. revert Hstep. unfold Second.step.
      destruct (truthy (url_to link)); simpl; [|intros [= <-]; exact H0].
      intros Hg. eapply group_under_Forall; [ | | | exact H0 | exact Hg].
      + apply second_mutate_referrers_bounded.
      + apply fresh_referrers_bounded.
      + intros st''. destruct (truthy (domain_from link)); congruence. }
  apply Hgen. constructor.
Qed.

(** C3 holds in the second variant and is broken by the first, which pushes a
    referrer for every edge while fewer than ten are stored: two links from
    one source domain to one target leave two top referrers for a single
    referring domain. *)
Theorem first_group_repeats_domain_in_top_referrers :
  exists a,
    First.group example_URL
      [ backlink "https://example.com/a" "https://one.test/x" "one.test";
        backlink "https://example.com/a" "https://one.test/y" "one.test" ]
    = Normal [("/a"%string, a)]
    /\ length (Acc.top_referrers a) = 2
    /\ length (Acc.referring_domains a) = 1.
Proof.
  eexists. split; [reflexivity|]. split; reflexivity.
Qed.

(** ** [Promise.all] over promises that are all fulfilled *)

Section PromiseAllFacts.
Context {A : Type}.
Implicit Types (slots : list (option A)) (vs : list A).

Lemma vacancies_replicate n : vacancies (replicate n (@None A)) = n.
Proof. unfold vacancies. induction n; simpl; congruence. Qed.

Lemma vacancies_insert slots i a :
  slots !! i = Some None ->
  vacancies (<[i := Some a]> slots) = pred (vacancies slots)
  /\ 0 < vacancies slots.
Proof.
  unfold vacancies. revert i.
  induction slots as [|o slots IH]; intros [|i]; simpl; try discriminate.
  - intros [= ->]. simpl. lia.
  - intros H. destruct (IH i H) as [IH1 IH2].
    destruct o; simpl; rewrite ?IH1; lia.
Qed.

Lemma vacancies_none slots :
  (forall i, slots !! i <> Some None) -> vacancies slots = 0.
Proof.
  unfold vacancies. induction slots as [|o slots IH]; intros H; simpl; [reflexivity|].
  destruct o as [a|].
  - apply IH. intros i. apply (H (S i)).
  - exfalso. apply (H 0). reflexivity.
Qed.

Lemma collect_full vs : forall slots,
  partly_filled vs slots -> vacancies slots = 0 -> PromiseAll.collect slots = vs.
Proof.
  unfold PromiseAll.collect, vacancies.
  induction vs as [|v vs IH]; intros [|o slots] [Hlen Hp]; simpl in *;
    try discriminate; [reflexivity|].
  destruct (Hp 0 v eq_refl) as [[= ->]|[= ->]]; simpl; [discriminate|].
  intros Hv. f_equal. apply IH; [|exact Hv].
  split; [congruence|]. intros i w Hw. apply (Hp (S i) w Hw).
Qed.

Lemma all_invariant_start vs : all_invariant vs (PromiseAll.start (length vs)).
Proof.
  unfold all_invariant, PromiseAll.start. simpl.
  rewrite vacancies_replicate. repeat split.
  - apply length_replicate.
  - intros i v Hv. left. apply lookup_replicate_2. eapply lookup_lt_Some, Hv.
  - destruct vs; reflexivity.
Qed.

Lemma all_invariant_settle vs s i :
  all_invariant vs s ->
  all_invariant vs (PromiseAll.settle (Fulfilled <$> vs) s i).
Proof.
  intros (Hp & Hr & Hres). unfold PromiseAll.settle.
  rewrite list_lookup_fmap.
  destruct (vs !! i) as [a|] eqn:Hi; simpl; [|split; [|split]; assumption].
  destruct (PromiseAll.values s !! i) as [[b|]|] eqn:Hs;
    [split; [|split]; assumption| |split; [|split]; assumption].
  destruct (vacancies_insert (PromiseAll.values s) i a Hs) as [Hv Hpos].
  assert (Hp' : partly_filled vs (<[i:=Some a]> (PromiseAll.values s))).
  { destruct Hp as [Hlen Hp]. split; [rewrite length_insert; exact Hlen|].
    intros j v Hj. destruct (decide (i = j)) as [->|Hne].
    - right. rewrite list_lookup_insert_eq by (eapply lookup_lt_Some, Hs).
      congruence.
    - rewrite list_lookup_insert_ne by exact Hne. apply Hp, Hj. }
  split; [exact Hp'|]. simpl. split; [rewrite Hr, Hv; reflexivity|].
  rewrite Hv, Hr, Hres.
  destruct (vacancies (PromiseAll.values s)) as [|k] eqn:Hk; [lia|]. simpl.
  destruct (k =? 0) eqn:Hk0; [|reflexivity].
  simpl. f_equal. apply collect_full; [exact Hp'|].
  rewrite Hv, ?Hk. simpl. apply Nat.eqb_eq, Hk0.
Qed.

Lemma settle_keeps_filled (inputs : list (promise A)) s i j :
  PromiseAll.values s !! j <> Some None ->
  PromiseAll.values (PromiseAll.settle inputs s i) !! j <> Some None.
Proof.
  intros Hj. unfold PromiseAll.settle.
  destruct (inputs !! i) as [[|a|r]|]; try exact Hj;
    destruct (PromiseAll.values s !! i) as [[b|]|] eqn:Hs; try exact Hj.
  simpl. destruct (decide (i = j)) as [->|Hne].
  - rewrite list_lookup_insert_eq by (eapply lookup_lt_Some, Hs). discriminate.
  - rewrite list_lookup_insert_ne by exact Hne. exact Hj.
Qed.

Lemma settle_fills vs s i :
  PromiseAll.values (PromiseAll.settle (Fulfilled <$> vs) s i) !! i <> Some None
  \/ length vs <= i.
Proof.
  unfold PromiseAll.settle. rewrite list_lookup_fmap.
  destruct (vs !! i) as [a|] eqn:Hi; simpl.
  - left. destruct (PromiseAll.values s !! i) as [[b|]|] eqn:Hs; simpl.
    + rewrite Hs. discriminate.
    + rewrite list_lookup_insert_eq by (eapply lookup_lt_Some, Hs). discriminate.
    + rewrite Hs. discriminate.
  - right. apply lookup_ge_None, Hi.
Qed.

Lemma fold_settle vs (order : list nat) : forall s,
  all_invariant vs s ->
  let s' := fold_left (PromiseAll.settle (Fulfilled <$> vs)) order s in
  all_invariant vs s'
  /\ forall j, j < length vs ->
       In j order \/ PromiseAll.values s !! j <> Some None ->
       PromiseAll.values s' !! j <> Some None.
Proof.
  induction order as [|i order IH]; intros s Hs; simpl.
  - split; [exact Hs|]. intros j _ [[]|H]. exact H.
  - destruct (IH _ (all_invariant_settle vs s i Hs)) as [Hinv Hfill].
    split; [exact Hinv|]. intros j Hj [[->|Hin]|Hf].
    + apply Hfill; [exact Hj|]. right.
      destruct (settle_fills vs s j) as [H|H]; [exact H|lia].
    + apply Hfill; [exact Hj|]. left. exact Hin.
    + apply Hfill; [exact Hj|]. right. apply settle_keeps_filled, Hf.
Qed.

(** Whatever the settling order, the combined promise is pending or holds
    the values in input order. *)
Lemma promise_all_fulfilled_inputs vs (order : list nat) :
  PromiseAll.all (Fulfilled <$> vs) order = Pending
  \/ PromiseAll.all (Fulfilled <$> vs) order = Fulfilled vs.
Proof.
  unfold PromiseAll.all. rewrite length_fmap.
  destruct (fold_settle vs order _ (all_invariant_start vs)) as [(_ & _ & Hres) _].
  rewrite Hres. destruct (_ =? 0); auto.
Qed.

(** Once every input has settled, it holds the values in input order. *)
Lemma promise_all_fair vs (order : list nat) :
  (forall j, j < length vs -> In j order) ->
  PromiseAll.all (Fulfilled <$> vs) order = Fulfilled vs.
Proof.
  intros Hfair. unfold PromiseAll.all. rewrite length_fmap.
  destruct (fold_settle vs order _ (all_invariant_start vs)) as [(Hp & _ & Hres) Hfill].
  rewrite Hres, vacancies_none; [reflexivity|].
  intros j. destruct (decide (j < length vs)) as [Hj|Hj].
  - apply Hfill; auto.
  - destruct Hp as [Hlen _]. rewrite lookup_ge_None_2 by lia. discriminate.
Qed.
End PromiseAllFacts.

(** ** The liveness probe *)

Section ProbeFacts.
Variable new_URL : string -> option Url.t.
Variable request_throws : string -> string -> bool.
Variable net : Req.t -> outcome.

(** A probe of the second variant is never left pending: it resolves, or
    rejects when the call of [request] throws. *)
Lemma second_probe_settles url :
  (exists code, settled (Second.checkUrlStatus new_URL request_throws net url)
                = Fulfilled code)
  \/ settled (Second.checkUrlStatus new_URL request_throws net url) = Rejected TypeError.
Proof.
  unfold Second.checkUrlStatus.
  destruct (new_URL url) as [parsedUrl|]; [|left; eexists; reflexivity].
  destruct (request_throws _ _) eqn:Hthrows; [right; reflexivity|]. left.
  simpl in Hthrows.
  destruct (net (Second.head_options parsedUrl)); simpl; rewrite ?Hthrows; simpl;
    try (eexists; reflexivity);
    destruct (net _); eexists; reflexivity.
Qed.

Lemma public_probe_settles url :
  exists code, settled (Public.checkUrlStatus new_URL request_throws net url)
               = Fulfilled code.
Proof.
  unfold Public.checkUrlStatus.
  destruct (new_URL url) as [urlObj|]; [|eexists; reflexivity].
  destruct (request_throws _ _); [eexists; reflexivity|].
  simpl. destruct (net _); eexists; reflexivity.
Qed.

Lemma check_fulfilled domain item :
  Second.check new_URL request_throws net domain item = Fulfilled (check_value new_URL
      request_throws net domain item).
Proof.
  unfold check_value.
  assert (H : exists row, Second.check new_URL request_throws net domain item = Fulfilled row);
    [|destruct H as [row ->]; reflexivity].
  unfold Second.check.
  destruct (truthy (Second.url_to_check domain item)); simpl; [|eexists; reflexivity].
  destruct (second_probe_settles (js_to_string (Second.url_to_check domain item)))
    as [[code ->] | ->]; [|eexists; reflexivity].
  destruct ((code =? 404)%Z || (code =? 410)%Z); [|eexists; reflexivity].
  destruct (truthy (Item.dead_page item)); [eexists; reflexivity|].
  destruct (new_URL _); eexists; reflexivity.
Qed.

Lemma check_value_status domain item row :
  check_value new_URL request_throws net domain item = Some row ->
  Dead.status_code row = 404%Z \/ Dead.status_code row = 410%Z.
Proof.
  unfold check_value, Second.check.
  destruct (truthy (Second.url_to_check domain item)); simpl; [|discriminate].
  destruct (settled _) as [|code|]; try discriminate.
  destruct (code =? 404)%Z eqn:H404; simpl.
  - apply Z.eqb_eq in H404. subst code.
    destruct (truthy (Item.dead_page item)); [intros [= <-]; auto|].
    destruct (new_URL _); [intros [= <-]; auto|discriminate].
  - destruct (code =? 410)%Z eqn:H410; [|discriminate].
    apply Z.eqb_eq in H410. subst code.
    destruct (truthy (Item.dead_page item)); [intros [= <-]; auto|].
    destruct (new_URL _); [intros [= <-]; auto|discriminate].
Qed.

Lemma check_value_backlinks domain item row :
  check_value new_URL request_throws net domain item = Some row ->
  Dead.backlink_count row = Item.backlink_count item.
Proof.
  unfold check_value, Second.check.
  destruct (truthy (Second.url_to_check domain item)); simpl; [|discriminate].
  destruct (settled _) as [|code|]; try discriminate.
  destruct ((code =? 404)%Z || (code =? 410)%Z); [|discriminate].
  destruct (truthy (Item.dead_page item)); [intros [= <-]; reflexivity|].
  destruct (new_URL _); [intros [= <-]; reflexivity|discriminate].
Qed.

Lemma omap_id_map {B C : Type} (f : B -> option C) (l : list B) :
  omap id (map f l) = omap f l.
Proof.
  induction l as [|x l IH]; [reflexivity|].
  change (omap id (map f (x :: l)))
    with (match f x with Some y => y :: omap id (map f l) | None => omap id (map f l) end).
  rewrite IH. reflexivity.
Qed.

Lemma map_check domain (batch : list Item.t) :
  map (Second.check new_URL request_throws net domain) batch
  = Fulfilled <$> map (check_value new_URL request_throws net domain) batch.
Proof.
  induction batch as [|item batch IH]; simpl; [reflexivity|].
  rewrite check_fulfilled, IH. reflexivity.
Qed.

(** The batch loop yields the rows of the items from index [i] on, in item
    order, after those already collected; it stays pending only under an
    order in which some probe never settles. *)
Lemma batches_rows settle_order site urlsToCheck i deadPages :
  let rows := deadPages ++ omap (check_value new_URL request_throws net site) (skipn i
      urlsToCheck) in
  (Second.batches new_URL request_throws net settle_order site urlsToCheck i deadPages = Pending
   \/ Second.batches new_URL request_throws net settle_order site urlsToCheck i deadPages
      = Fulfilled rows)
  /\ (fair settle_order ->
      Second.batches new_URL request_throws net settle_order site urlsToCheck i deadPages
      = Fulfilled rows).
Proof.
  funelim (Second.batches new_URL request_throws net settle_order site urlsToCheck i deadPages);
    cbv zeta; clear Heqcall;
    try match goal with
        | Hall : PromiseAll.all (map (Second.check _ _ _ ?d) ?batch) ?order = _ |- _ =>
            rewrite map_check in Hall;
            pose proof (promise_all_fulfilled_inputs
                          (map (check_value new_URL request_throws net d) batch) order) as Hcases;
            pose proof (promise_all_fair
                          (map (check_value new_URL request_throws net d) batch) order) as Hfair;
            rewrite Hall in Hcases, Hfair
        end.
  - rewrite skipn_all2 by lia. simpl. rewrite app_nil_r. auto.
  - split; [auto|]. intros Hf. exfalso.
    match type of Hfair with ?P -> _ => assert (Hsettled : P) end.
    { intros j Hj. apply Hf.
      unfold slice in Hj. rewrite length_map, length_firstn in Hj. lia. }
    specialize (Hfair Hsettled). discriminate Hfair.
  - destruct Hcases as [Hc|Hc]; [discriminate|]. injection Hc as ->.
    rewrite omap_id_map in *.
    match goal with
    | |- context [omap (check_value new_URL request_throws net ?d) (skipn ?k ?u)] =>
        assert (Hsplit : omap (check_value new_URL request_throws net d) (skipn k u)
                         = omap (check_value new_URL request_throws net d) (slice k (k + 10) u)
                           ++ omap (check_value new_URL request_throws net d) (skipn (k + 10) u))
    end.
    { unfold slice.
      match goal with |- context [?k + 10 - ?k] => replace (k + 10 - k) with 10 by lia end.
      rewrite <- omap_app. f_equal.
      match goal with |- context [skipn (?k + 10) _] => rewrite (Nat.add_comm k 10) end.
      rewrite <- skipn_skipn. symmetry. apply firstn_skipn. }
    rewrite Hsplit, app_assoc. assumption.
  - destruct Hcases; discriminate.
Qed.
End ProbeFacts.

(** ** Sorting by a numeric key, largest first *)

Section SortFacts.
Context {A : Type}.
Variable key : A -> nat.
Variable compare : A -> A -> Z.
Hypothesis compare_key : forall a b, (0 < compare a b)%Z <-> key a < key b.

Lemma insert_sorted_perm x l : Permutation (insert_sorted compare x l) (x :: l).
Proof.
  induction l as [|y l IH]; simpl; [reflexivity|].
  destruct (0 <? compare x y)%Z; [|reflexivity].
  rewrite IH. apply perm_swap.
Qed.

Lemma js_sort_perm l : Permutation (js_sort compare l) l.
Proof.
  induction l as [|x l IH]; simpl; [reflexivity|].
  rewrite insert_sorted_perm, IH. reflexivity.
Qed.

Lemma insert_sorted_ranked x l : ranked key l -> ranked key (insert_sorted compare x l).
Proof.
  unfold ranked. induction 1 as [|y l Hl IH Hy]; simpl.
  - repeat constructor.
  - destruct (0 <? compare x y)%Z eqn:Hc.
    + apply Z.ltb_lt, compare_key in Hc.
      constructor; [exact IH|].
      rewrite insert_sorted_perm. constructor; [lia|exact Hy].
    + apply Z.ltb_ge in Hc.
      assert (Hxy : key y <= key x).
      { destruct (le_lt_dec (key y) (key x)) as [H|H]; [exact H|].
        apply compare_key in H. lia. }
      constructor; [constructor; assumption|].
      constructor; [exact Hxy|].
      eapply Forall_impl; [exact Hy|]. simpl. intros z Hz. lia.
Qed.

Lemma js_sort_ranked l : ranked key (js_sort compare l).
Proof.
  induction l as [|x l IH]; simpl; [constructor|].
  apply insert_sorted_ranked, IH.
Qed.

Lemma js_sort_length l : length (js_sort compare l) = length l.
Proof. apply Permutation_length, js_sort_perm. Qed.

Lemma js_sort_Forall (P : A -> Prop) l : Forall P l -> Forall P (js_sort compare l).
Proof. intros H. rewrite js_sort_perm. exact H. Qed.

(** Stability: a list that is already ranked is left as it is, so ties keep
    their order. *)
Lemma js_sort_ranked_id l : ranked key l -> js_sort compare l = l.
Proof.
  unfold ranked. induction 1 as [|x l Hl IH Hx]; simpl; [reflexivity|].
  rewrite IH. destruct l as [|y l]; simpl; [reflexivity|].
  inversion Hx as [|? ? Hxy _]; subst.
  destruct (0 <? compare x y)%Z eqn:Hc; [|reflexivity].
  apply Z.ltb_lt, compare_key in Hc. lia.
Qed.
End SortFacts.

Lemma dead_compare_key (a b : Dead.t) :
  (0 < Dead.by_backlinks_desc a b)%Z <-> Dead.backlink_count a < Dead.backlink_count b.
Proof. unfold Dead.by_backlinks_desc. lia. Qed.

Lemma marked_compare_key (a b : Marked.t) :
  (0 < Marked.by_backlinks_desc a b)%Z
  <-> Marked.backlink_count a < Marked.backlink_count b.
Proof. unfold Marked.by_backlinks_desc. lia. Qed.

Lemma item_compare_key (a b : Item.t) :
  (0 < Item.by_backlinks_desc a b)%Z <-> Item.backlink_count a < Item.backlink_count b.
Proof. unfold Item.by_backlinks_desc. lia. Qed.

Lemma firstn_ranked {A : Type} (key : A -> nat) n (l : list A) :
  ranked key l -> ranked key (firstn n l).
Proof.
  unfold ranked. intros H. revert n.
  induction H as [|x l Hl IH Hx]; intros [|n]; simpl; try constructor.
  - apply IH.
  - apply Forall_take, Hx.
Qed.

(** ** The dead-page filter *)

Section FilterFacts.
Variable new_URL : string -> option Url.t.
Variable request_throws : string -> string -> bool.
Variable net : Req.t -> outcome.

Lemma filterDeadPages_rows settle_order results site :
  (Second.filterDeadPages new_URL request_throws net settle_order results site = Pending
   \/ Second.filterDeadPages new_URL request_throws net settle_order results site
      = Fulfilled (dead_rows new_URL request_throws net results site))
  /\ (fair settle_order ->
      Second.filterDeadPages new_URL request_throws net settle_order results site
      = Fulfilled (dead_rows new_URL request_throws net results site)).
Proof.
  unfold Second.filterDeadPages, dead_rows.
  destruct (batches_rows new_URL request_throws net settle_order site (slice 0 100 results) 0 [])
    as [Hany Hfair].
  simpl in Hany, Hfair. unfold slice in *. simpl in *.
  split.
  - destruct Hany as [-> | ->]; auto.
  - intros Hf. rewrite (Hfair Hf). reflexivity.
Qed.

Lemma omap_length_le {B C : Type} (f : B -> option C) (l : list B) :
  length (omap f l) <= length l.
Proof.
  induction l as [|x l IH]; [simpl; lia|].
  change (omap f (x :: l))
    with (match f x with Some y => y :: omap f l | None => omap f l end).
  destruct (f x); simpl; lia.
Qed.

Lemma omap_Forall {B C : Type} (f : B -> option C) (P : C -> Prop) (l : list B) :
  (forall x y, f x = Some y -> P y) -> Forall P (omap f l).
Proof.
  intros Hf. induction l as [|x l IH]; [constructor|].
  change (omap f (x :: l))
    with (match f x with Some y => y :: omap f l | None => omap f l end).
  destruct (f x) eqn:Hx; [constructor; [eapply Hf, Hx|exact IH]|exact IH].
Qed.

Lemma dead_rows_ranked results site :
  ranked Dead.backlink_count (dead_rows new_URL request_throws net results site).
Proof. apply js_sort_ranked, dead_compare_key. Qed.

Lemma dead_rows_length results site : length (dead_rows new_URL request_throws net results site)
    <= 100.
Proof.
  unfold dead_rows. rewrite js_sort_length.
  etransitivity; [apply omap_length_le|]. rewrite length_firstn. lia.
Qed.

Lemma dead_rows_status results site :
  Forall (fun row => Dead.status_code row = 404%Z \/ Dead.status_code row = 410%Z)
         (dead_rows new_URL request_throws net results site).
Proof.
  apply js_sort_Forall, omap_Forall. intros item row. apply check_value_status.
Qed.

Lemma check_each_rows (items : list Acc.t) : forall results,
  exists rows,
    Public.check_each new_URL request_throws net items results = Fulfilled (results ++ rows)
    /\ length rows <= length items
    /\ Forall (fun row => Marked.status_code row = 404%Z
                          \/ Marked.status_code row = 410%Z) rows.
Proof.
  induction items as [|item items IH]; intros results; simpl.
  - exists []. rewrite app_nil_r. repeat split; simpl; [lia|constructor].
  - destruct (public_probe_settles new_URL request_throws net (js_to_string (Acc.target_url item)))
      as [status ->].
    destruct (status =? 404)%Z eqn:H404; simpl.
    { apply Z.eqb_eq in H404. subst status. simpl.
      destruct (IH (results ++ [Marked.mark 404 item])) as (rows & -> & Hlen & Hst).
      exists (Marked.mark 404 item :: rows). rewrite <- app_assoc.
      repeat split; simpl; [lia|constructor; auto]. }
    destruct (status =? 410)%Z eqn:H410; simpl.
    { apply Z.eqb_eq in H410. subst status. simpl.
      destruct (IH (results ++ [Marked.mark 410 item])) as (rows & -> & Hlen & Hst).
      exists (Marked.mark 410 item :: rows). rewrite <- app_assoc.
      repeat split; simpl; [lia|constructor; auto]. }
    destruct (status =? 0)%Z eqn:H0.
    { destruct (IH (results ++ [Marked.mark 404 item])) as (rows & -> & Hlen & Hst).
      exists (Marked.mark 404 item :: rows). rewrite <- app_assoc.
      repeat split; simpl; [lia|constructor; auto]. }
    destruct (IH results) as (rows & -> & Hlen & Hst).
    exists rows. repeat split; [lia|exact Hst].
Qed.
End FilterFacts.

Lemma slice_from_start {A : Type} n (l : list A) : slice 0 n l = firstn n l.
Proof. unfold slice. rewrite Nat.sub_0_r. reflexivity. Qed.

(** ** The ranker (C5) *)

(** C5.  Whatever the items, the network and the settling order, the list
    that [filterDeadPages] resolves with is sorted non-increasing by
    [backlink_count], has at most 100 rows, hence no more than the result cap
    of 1000, and every row has status 404 or 410; it resolves unless some
    probe of a batch never settles.  The same holds of the results of the
    public variant's [callDataForSEO], whose cap is applied by
    [slice(0, 1000)]. *)
Theorem ranker_output_sorted_capped_dead
    (new_URL : string -> option Url.t) (request_throws : string -> string -> bool)
    (net : Req.t -> outcome)
    (settle_order : nat -> list nat) (results : list Item.t) (site : string)
    (reply : provider_reply) :
  match Second.filterDeadPages new_URL request_throws net settle_order results site with
  | Fulfilled deadPages =>
      ranked Dead.backlink_count deadPages
      /\ length deadPages <= 100 /\ length deadPages <= 1000
      /\ Forall (fun row => Dead.status_code row = 404%Z
                            \/ Dead.status_code row = 410%Z) deadPages
  | Pending => ~ fair settle_order
  | Rejected _ => False
  end
  /\ match Public.callDataForSEO new_URL request_throws net reply with
     | Fulfilled (ApiResults rows) =>
         ranked Marked.backlink_count rows
         /\ length rows <= 1000
         /\ Forall (fun row => Marked.status_code row = 404%Z
                               \/ Marked.status_code row = 410%Z) rows
     | Fulfilled (ApiError _) => True
     | Pending => reply = NoReply
     | Rejected _ => False
     end.
Proof.
  split.
  - destruct (filterDeadPages_rows new_URL request_throws net settle_order results site)
      as [[-> | ->] Hfair].
    + intros Hf. specialize (Hfair Hf). discriminate.
    + pose proof (dead_rows_length new_URL request_throws net results site).
      repeat split; [apply dead_rows_ranked|lia|lia|apply dead_rows_status].
  - unfold Public.callDataForSEO. destruct reply as [| | |m|backlinks]; try exact I.
    + reflexivity.
    + destruct (Public.group new_URL backlinks) as [groupedByTarget|]; [|exact I].
      destruct (check_each_rows new_URL request_throws net
                  (slice 0 100 (object_values groupedByTarget)) [])
        as (rows & -> & _ & Hst).
      simpl. rewrite slice_from_start. repeat split.
      * apply firstn_ranked, js_sort_ranked, marked_compare_key.
      * rewrite length_firstn. lia.
      * apply Forall_take, js_sort_Forall, Hst.
Qed.

(** ** Determinism (C8) *)

(** C8.  For a fixed event, environment, provider reply and network, the
    response of the scan does not depend on the order in which the probes of
    a batch settle: under any two orders in which every probe settles,
    [filterDeadPages] resolves with the same rows and the handler with the
    same response, and so with the same serialized body. *)
Theorem scan_independent_of_settling_order
    (new_URL : string -> option Url.t) (JSON_parse : string -> option json)
    (request_throws : string -> string -> bool)
    (net : Req.t -> outcome) (order1 order2 : nat -> list nat)
    (results : list Item.t) (site : string) (env : Env.t) (event : Event.t) :
  fair order1 -> fair order2 ->
  (exists rows,
      Second.filterDeadPages new_URL request_throws net order1 results site = Fulfilled rows
      /\ Second.filterDeadPages new_URL request_throws net order2 results site = Fulfilled rows)
  /\ Second.handler new_URL JSON_parse request_throws net order1 env event
     = Second.handler new_URL JSON_parse request_throws net order2 env event.
Proof.
  intros H1 H2. split.
  - exists (dead_rows new_URL request_throws net results site). split.
    + apply filterDeadPages_rows, H1.
    + apply filterDeadPages_rows, H2.
  - unfold Second.handler, Second.attempt.
    repeat match goal with
           | |- context [match ?x with _ => _ end] =>
               lazymatch x with
               | Second.filterDeadPages _ _ _ _ _ _ => fail
               | _ => destruct x
               end
           | |- context [if ?x then _ else _] => destruct x
           end; try reflexivity.
    all: rewrite (proj2 (filterDeadPages_rows new_URL request_throws net order1 _ _) H1),
                 (proj2 (filterDeadPages_rows new_URL request_throws net order2 _ _) H2);
         reflexivity.
Qed.

Lemma scan_independent_of_settling_order_witness :
  (exists rows,
      Second.filterDeadPages example_URL refuses_unescaped example_net in_order [item_a]
          "example.com"
      = Fulfilled rows
      /\ Second.filterDeadPages example_URL refuses_unescaped example_net reversed [item_a]
          "example.com"
         = Fulfilled rows)
  /\ Second.handler example_URL example_JSON_parse refuses_unescaped example_net in_order
       (example_env (Accepted scenario_edges) "2024-05-01T10:00:00.000Z") (post "example")
     = Second.handler example_URL example_JSON_parse refuses_unescaped example_net reversed
         (example_env (Accepted scenario_edges) "2024-05-01T10:00:00.000Z") (post "example").
Proof.
  apply (scan_independent_of_settling_order example_URL example_JSON_parse refuses_unescaped
      example_net
           in_order reversed [item_a] "example.com").
  - intros i j Hj. unfold in_order. apply in_seq. lia.
  - intros i j Hj. unfold reversed. apply in_rev. rewrite rev_involutive.
    apply in_seq. lia.
Defined.

(** ** Unreachable targets (C2) *)




(** ** The GET fallback (C6) *)

(** C6, as stated, fails on a timeout of the HEAD request: the probe
    resolves to 0 at once, and the status 200 with which the GET request is
    answered is not used. *)
Lemma head_timeout_resolves_zero_whatever_the_fallback :
  exists parsedUrl,
    example_URL "https://example.com/a" = Some parsedUrl
    /\ head_times_out (Second.head_options parsedUrl) = TimeoutEvent
    /\ head_times_out (Req.with_method "GET" (Second.head_options parsedUrl))
       = Response 200
    /\ settled (Second.checkUrlStatus example_URL refuses_unescaped head_times_out
        "https://example.com/a")
       = Fulfilled 0%Z.
Proof. eexists. repeat split; reflexivity. Qed.

(** C6, amended.  When the HEAD request fails by a transport error, a GET
    request with the same host, path, timeout and headers is issued and its
    status code is used, 0 being recorded when the GET also errors or times
    out.  When the HEAD request times out, 0 is recorded at once; the GET
    request that the destroyed request's error listener then issues cannot
    change it.  When the HEAD request is answered, its status code is
    used.  These are the cases of a HEAD request that was created: when the
    call of [request] throws on its options, no request is issued and the
    promise is rejected. *)
Theorem head_error_falls_back_to_get
    (new_URL : string -> option Url.t) (request_throws : string -> string -> bool)
    (net : Req.t -> outcome)
    (url : string) (parsedUrl : Url.t) :
  new_URL url = Some parsedUrl ->
  let options := Second.head_options parsedUrl in
  let getReq := Req.with_method "GET" options in
  let result := Second.checkUrlStatus new_URL request_throws net url in
  (request_throws (Req.hostname options) (Req.path options) = false ->
   (net options = ErrorEvent ->
    issued result = [options; getReq]
    /\ settled result = Fulfilled (match net getReq with
                                  | Response statusCode => statusCode
                                  | ErrorEvent => 0%Z
                                  | TimeoutEvent => 0%Z
                                  end))
   /\ (net options = TimeoutEvent ->
       result = {| settled := Fulfilled 0%Z; issued := [options; getReq] |})
   /\ (forall statusCode, net options = Response statusCode ->
       result = {| settled := Fulfilled statusCode; issued := [options] |}))
  /\ (request_throws (Req.hostname options) (Req.path options) = true ->
      result = {| settled := Rejected TypeError; issued := [] |})
  /\ Req.method getReq = "GET"%string
  /\ Req.timeout getReq = Req.timeout options
  /\ Req.hostname getReq = Req.hostname options
  /\ Req.path getReq = Req.path options
  /\ Req.over_https getReq = Req.over_https options
  /\ Req.user_agent getReq = Req.user_agent options.
Proof.
  intros Hparse. cbv zeta. unfold Second.checkUrlStatus. rewrite Hparse.
  split; [|split].
  - intros Hthrows. rewrite Hthrows. simpl in Hthrows.
    split; [|split].
    + intros ->. simpl. rewrite Hthrows. simpl.
      split; [reflexivity|]. destruct (net _); reflexivity.
    + intros ->. simpl. rewrite Hthrows. simpl. destruct (net _); reflexivity.
    + intros statusCode ->. reflexivity.
  - intros ->. reflexivity.
  - repeat split; reflexivity.
Qed.

Lemma head_error_falls_back_to_get_witness :
  exists parsedUrl,
    let options := Second.head_options parsedUrl in
    let getReq := Req.with_method "GET" options in
    let result := Second.checkUrlStatus example_URL refuses_unescaped head_refused
                    "https://example.com/a" in
    issued result = [options; getReq] /\ settled result = Fulfilled 404%Z.
Proof.
  eexists.
  exact (proj1 (proj1 (head_error_falls_back_to_get example_URL refuses_unescaped
                         head_refused "https://example.com/a" _ eq_refl) eq_refl)
           eq_refl).
Defined.

(** ** A request that cannot be created (C10) *)

(** C10 fails in the second variant.  Only [new URL(url)] is inside a
    [try] there; [protocol.request] is called outside it.  The string
    [httpx:a b] is a URL with the path [a b], on which the call throws: the
    promise of the second variant is rejected and no request is issued.  The
    public variant, whose whole executor is inside a [try], resolves to 0 on
    the same input. *)
Lemma second_checkUrlStatus_rejects_when_request_throws :
  exists parsedUrl,
    lenient_URL "httpx:a b" = Some parsedUrl
    /\ refuses_unescaped (Url.hostname parsedUrl)
         (Url.pathname parsedUrl +:+ Url.search parsedUrl) = true
    /\ Second.checkUrlStatus lenient_URL refuses_unescaped example_net "httpx:a b"
       = {| settled := Rejected TypeError; issued := [] |}
    /\ Public.checkUrlStatus lenient_URL refuses_unescaped example_net "httpx:a b"
       = {| settled := Fulfilled 0%Z; issued := [] |}.
Proof. eexists. repeat split; reflexivity. Qed.

(** ** Unparseable target URLs (C7) *)

(** The guarded variants group an unparseable target under its raw string. *)
Lemma grouping_key_unparseable (new_URL : string -> option Url.t) (e : edge) :
  new_URL (js_to_string (url_to e)) = None ->
  grouping_key new_URL e = js_to_string (url_to e).
Proof.
  intros H. unfold grouping_key, target_path_guarded. rewrite H. reflexivity.
Qed.

Lemma own_lookup_update (st : store) k f a :
  own_lookup st k = Some a -> own_lookup (own_update st k f) k = Some (f a).
Proof.
  induction st as [|[k' b] st IH]; simpl; [discriminate|].
  destruct (String.eqb k' k) eqn:Hk; simpl; rewrite Hk.
  - intros [= ->]. reflexivity.
  - exact IH.
Qed.

Lemma own_lookup_insert (st : store) k a :
  own_lookup st k = None -> own_lookup (own_insert st k a) k = Some a.
Proof.
  unfold own_insert. induction st as [|[k' b] st IH]; simpl.
  - intros _. rewrite String.eqb_refl. reflexivity.
  - destruct (String.eqb k' k); [discriminate|exact IH].
Qed.

(** In the second variant an edge whose target URL is given but does not
    parse is grouped under the raw string and counted. *)
Lemma second_step_keeps_unparseable_target
    (new_URL : string -> option Url.t) (st : store) (e : edge) :
  truthy (url_to e) = true ->
  new_URL (js_to_string (url_to e)) = None ->
  inherited (js_to_string (url_to e)) = false ->
  exists st' a,
    Second.step new_URL st e = Normal st'
    /\ own_lookup st' (js_to_string (url_to e)) = Some a
    /\ 0 < Acc.backlink_count a
    /\ total_backlinks st' = S (total_backlinks st).
Proof.
  intros Ht Hnone Hk.
  destruct (group_under_total st (url_to e) (url_to e) (Second.mutate e)
              (if truthy (domain_from e) then Threw TypeError else Normal st)
              (second_mutate_count e) Hk) as (st' & Hstep & Htotal).
  unfold Second.step, target_path_guarded. rewrite Ht, Hnone. simpl.
  rewrite Hstep. revert Hstep. unfold group_under, get_property. rewrite Hk.
  destruct (own_lookup st (js_to_string (url_to e))) as [a|] eqn:Hl; intros [= <-].
  - exists (own_update st (js_to_string (url_to e)) (Second.mutate e)),
           (Second.mutate e a).
    repeat split; [apply own_lookup_update, Hl| |exact Htotal].
    rewrite second_mutate_count. lia.
  - exists (own_insert st (js_to_string (url_to e))
              (Second.mutate e (Acc.fresh (url_to e) (url_to e)))),
           (Second.mutate e (Acc.fresh (url_to e) (url_to e))).
    repeat split; [apply own_lookup_insert, Hl| |exact Htotal].
    rewrite second_mutate_count. lia.
Qed.

(** The public variant gives up the whole aggregation as soon as one target
    URL does not parse. *)
Lemma public_group_throws (new_URL : string -> option Url.t) (backlinks : list edge) :
  Exists (fun e => new_URL (js_to_string (url_to e)) = None) backlinks ->
  Public.group new_URL backlinks = Threw TypeError.
Proof.
  unfold Public.group. generalize (@nil (string * Acc.t)).
  induction backlinks as [|e rest IH]; intros st Hex; [inversion Hex|].
  simpl. unfold Public.step at 1.
  destruct (new_URL (js_to_string (url_to e))) as [u|] eqn:Hu; [|reflexivity].
  inversion Hex as [? ? Hnone|? ? Hrest]; subst; [congruence|].
  unfold group_under. destruct (get_property st _); auto.
Qed.

(** C7 holds in the first and second variants and is broken by the public
    one, whose [new URL(targetUrl).pathname] is not guarded: with one
    parseable and one unparseable target the second variant keeps both
    edges, the unparseable one under its raw string, while the public
    variant throws and answers with the parse-error result, losing every
    edge. *)
Theorem public_group_aborts_on_unparseable_target :
  let backlinks :=
    [ backlink "https://example.com/a" "https://one.test/x" "one.test";
      backlink "/old-page" "https://two.test/y" "two.test" ] in
  example_URL "/old-page" = None
  /\ (exists st a,
        Second.group example_URL backlinks = Normal st
        /\ own_lookup st "/old-page" = Some a
        /\ Acc.backlink_count a = 1
        /\ total_backlinks st = 2)
  /\ Public.group example_URL backlinks = Threw TypeError
  /\ Public.callDataForSEO example_URL refuses_unescaped example_net (Accepted backlinks)
     = Fulfilled (ApiError (JString "Failed to parse API response")).
Proof.
  cbv zeta. split; [reflexivity|]. split; [|split; reflexivity].
  eexists. eexists. split; [reflexivity|]. repeat split; reflexivity.
Qed.

(** ** The rate limiter (C4) *)

Lemma rateLimitKey_date_inj site today1 today2 :
  Public.rateLimitKey site today1 = Public.rateLimitKey site today2 -> today1 = today2.
Proof.
  unfold Public.rateLimitKey. induction site as [|c site IH]; simpl.
  - intros [= H]. exact H.
  - intros [= H]. apply IH, H.
Qed.

Section RateLimit.
Variable new_URL : string -> option Url.t.
Variable JSON_parse : string -> option json.
Variable request_throws : string -> string -> bool.
Variable net : Req.t -> outcome.
Variable event : Event.t.
Variable members : list (string * json).
Variable d : string.
Hypothesis is_post : Event.httpMethod event = "POST"%string.
Hypothesis parsed :
  JSON_parse (js_to_string (js_or (Event.body event) (JString "{}")))
  = Some (JsonObject members).
Hypothesis has_domain : member "domain" members = Some (JsonString d).
Hypothesis domain_given : d <> ""%string.

Lemma run_unfold (cache : gmap string bool) env :
  Public.handler new_URL JSON_parse request_throws net cache env event
  = let (result, cache') := Public.attempt new_URL JSON_parse request_throws net cache env event in
    (catch_all false result, cache').
Proof.
  unfold Public.handler. rewrite is_post. reflexivity.
Qed.

Lemma domain_truthy : json_truthy (Some (JsonString d)) = true.
Proof.
  simpl. destruct (String.eqb d "") eqn:H; [|reflexivity].
  apply String.eqb_eq in H. contradiction.
Qed.

(** A present key refuses the scan and changes nothing. *)
Lemma run_limited (cache : gmap string bool) env :
  is_Some (cache !! limiter_key d env) ->
  Public.handler new_URL JSON_parse request_throws net cache env event = (Fulfilled
      Public.rate_limited, cache).
Proof.
  intros Hkey. rewrite run_unfold. unfold Public.attempt.
  rewrite parsed. simpl. rewrite has_domain, domain_truthy. simpl.
  fold (limiter_key d env). rewrite bool_decide_eq_true_2 by exact Hkey. reflexivity.
Qed.

(** An absent key lets the scan run; the key is set when, and only when,
    the scan reaches its 200 response. *)
Lemma run_allowed (cache : gmap string bool) env :
  cache !! limiter_key d env = None ->
  fst (Public.handler new_URL JSON_parse request_throws net cache env event) <> Fulfilled
      Public.rate_limited
  /\ snd (Public.handler new_URL JSON_parse request_throws net cache env event)
     = match fst (Public.handler new_URL JSON_parse request_throws net cache env event) with
       | Fulfilled r =>
           if (Response.statusCode r =? 200)%Z
           then <[limiter_key d env := true]> cache else cache
       | _ => cache
       end.
Proof.
  intros Hkey. rewrite run_unfold. unfold Public.attempt.
  rewrite parsed. simpl. rewrite has_domain, domain_truthy. simpl.
  fold (limiter_key d env). rewrite bool_decide_eq_false_2
    by (rewrite Hkey; intros [? ?]; discriminate).
  destruct (negb (truthy (Env.DATAFORSEO_LOGIN env))
            || negb (truthy (Env.DATAFORSEO_PASSWORD env)));
    [simpl; split; [discriminate|reflexivity]|].
  destruct (Public.callDataForSEO new_URL request_throws net (Env.reply env)) as
      [|[error|results]|e];
    simpl; try (split; [discriminate|reflexivity]).
  destruct (truthy error); simpl; split; (discriminate || reflexivity).
Qed.
End RateLimit.

(** C4, as stated, fails: the check inserts nothing.  When the provider call
    of the first scan fails, the cache is left empty and a second call for
    the same domain on the same date is allowed again. *)
Lemma failed_scan_leaves_domain_unmarked :
  let failing := example_env ConnectionFailed "2024-05-01T10:00:00.000Z" in
  let working := example_env (Accepted scenario_edges) "2024-05-01T10:00:05.000Z" in
  let first :=
    Public.handler example_URL example_JSON_parse refuses_unescaped example_net ∅ failing (post
        "example") in
  let second :=
    Public.handler example_URL example_JSON_parse refuses_unescaped example_net (snd first) working
      (post "example") in
  fst first
  = Fulfilled (respond 500 (Stringified (ErrorBody (JString "Failed to connect to API"))))
  /\ snd first = ∅
  /\ exists r, fst second = Fulfilled r /\ Response.statusCode r = 200%Z.
Proof.
  cbv zeta. split; [reflexivity|]. split; [reflexivity|].
  eexists. split; [vm_compute; reflexivity|reflexivity].
Qed.

(** C4, amended.  The rate limiter's check is a read of the cache and the
    mark is a later, separate step taken only when the provider call has
    succeeded.  For a POST whose body carries a non-empty string domain: if
    the key of (domain, date) is present the handler answers 429 and leaves
    the cache as it is; if it is absent the scan is allowed, and the key is
    inserted exactly when the scan ends with its 200 response.  Hence a
    second call with the same (domain, date) is refused after a successful
    first scan and allowed after a failed one, and a call for the same domain
    on a date whose key is absent is allowed again. *)
Theorem rate_limit_marked_after_successful_scan
    (new_URL : string -> option Url.t) (JSON_parse : string -> option json)
    (request_throws : string -> string -> bool)
    (net : Req.t -> outcome) (event : Event.t)
    (members : list (string * json)) (d : string)
    (cache : gmap string bool) (env1 env2 env3 : Env.t) :
  Event.httpMethod event = "POST"%string ->
  JSON_parse (js_to_string (js_or (Event.body event) (JString "{}")))
  = Some (JsonObject members) ->
  member "domain" members = Some (JsonString d) ->
  d <> ""%string ->
  let today env := before_first "T" (Env.first_clock_reading env) in
  let key env := limiter_key d env in
  let run c env := Public.handler new_URL JSON_parse request_throws net c env event in
  let first := run cache env1 in
  (is_Some (cache !! key env1) -> first = (Fulfilled Public.rate_limited, cache))
  /\ (cache !! key env1 = None ->
      fst first <> Fulfilled Public.rate_limited
      /\ snd first
         = match fst first with
           | Fulfilled r =>
               if (Response.statusCode r =? 200)%Z
               then <[key env1 := true]> cache else cache
           | _ => cache
           end
      /\ (today env2 = today env1 ->
          match fst first with
          | Fulfilled r =>
              if (Response.statusCode r =? 200)%Z
              then run (snd first) env2 = (Fulfilled Public.rate_limited, snd first)
              else fst (run (snd first) env2) <> Fulfilled Public.rate_limited
          | _ => fst (run (snd first) env2) <> Fulfilled Public.rate_limited
          end)
      /\ (today env3 <> today env1 -> cache !! key env3 = None ->
          fst (run (snd first) env3) <> Fulfilled Public.rate_limited)).
Proof.
  intros Hpost Hparse Hdom Hd. cbv zeta.
  pose proof (run_limited new_URL JSON_parse request_throws net event members d
                Hpost Hparse Hdom Hd) as Hlimited.
  pose proof (run_allowed new_URL JSON_parse request_throws net event members d
                Hpost Hparse Hdom Hd) as Hallowed.
  unfold limiter_key in *.
  split; [apply Hlimited|].
  intros Habsent.
  destruct (Hallowed cache env1 Habsent) as [Hfirst Hcache].
  split; [exact Hfirst|]. split; [exact Hcache|]. split.
  - intros Hsame. rewrite Hcache.
    destruct (fst (Public.handler new_URL JSON_parse request_throws net cache env1 event))
      as [|r|e].
    + apply Hallowed. rewrite Hsame. exact Habsent.
    + destruct (Response.statusCode r =? 200)%Z.
      * apply Hlimited. rewrite Hsame.
        rewrite lookup_insert_eq. eexists; reflexivity.
      * apply Hallowed. rewrite Hsame. exact Habsent.
    + apply Hallowed. rewrite Hsame. exact Habsent.
  - intros Hother Habsent3. apply Hallowed.
    rewrite Hcache.
    destruct (fst (Public.handler new_URL JSON_parse request_throws net cache env1 event))
      as [|r|e]; try exact Habsent3.
    destruct (Response.statusCode r =? 200)%Z; [|exact Habsent3].
    rewrite lookup_insert_ne; [exact Habsent3|].
    intros Heq. apply rateLimitKey_date_inj in Heq. congruence.
Qed.

Lemma rate_limit_witness :
  let env1 := example_env (Accepted scenario_edges) "2024-05-01T10:00:00.000Z" in
  let env2 := example_env (Accepted scenario_edges) "2024-05-01T18:30:00.000Z" in
  let env3 := example_env (Accepted scenario_edges) "2024-05-02T09:00:00.000Z" in
  let run c env :=
    Public.handler example_URL example_JSON_parse refuses_unescaped example_net c env (post
        "example") in
  let first := run ∅ env1 in
  run (snd first) env2 = (Fulfilled Public.rate_limited, snd first)
  /\ fst (run (snd first) env3) <> Fulfilled Public.rate_limited.
Proof.
  cbv zeta.
  destruct (rate_limit_marked_after_successful_scan
              example_URL example_JSON_parse refuses_unescaped example_net (post "example")
              [("domain"%string, JsonString "https://Example.com/")]
              "https://Example.com/" ∅
              (example_env (Accepted scenario_edges) "2024-05-01T10:00:00.000Z")
              (example_env (Accepted scenario_edges) "2024-05-01T18:30:00.000Z")
              (example_env (Accepted scenario_edges) "2024-05-02T09:00:00.000Z")
              eq_refl eq_refl eq_refl ltac:(discriminate)) as [_ H].
  destruct (H eq_refl) as (_ & _ & H2 & H3).
  split; [exact (H2 eq_refl)|].
  apply H3; [discriminate|reflexivity].
Defined.

(** ** The handler's responses (C9) *)

Lemma second_callDataForSEO_settles (new_URL : string -> option Url.t) reply :
  (reply = NoReply /\ Second.callDataForSEO new_URL reply = Pending)
  \/ exists r, Second.callDataForSEO new_URL reply = Fulfilled r.
Proof.
  destruct reply; simpl; eauto.
  destruct (Second.group new_URL items); eauto.
Qed.

Lemma public_callDataForSEO_settles (new_URL : string -> option Url.t)
    (request_throws : string -> string -> bool)
    (net : Req.t -> outcome) reply :
  (reply = NoReply /\ Public.callDataForSEO new_URL request_throws net reply = Pending)
  \/ exists r, Public.callDataForSEO new_URL request_throws net reply = Fulfilled r.
Proof.
  destruct reply; simpl; eauto.
  destruct (Public.group new_URL items) as [g|]; eauto.
  destruct (check_each_rows new_URL request_throws net (slice 0 100 (object_values g)) [])
    as (rows & -> & _). eauto.
Qed.

(** An error result always carries a truthy message, so the handlers' test
    [if (apiResult.error)] separates the two shapes of result. *)
Lemma api_error_truthy (status_message : jsval) :
  truthy (js_or status_message (JString "API error")) = true.
Proof.
  unfold js_or. destruct (truthy status_message) eqn:H; [exact H|reflexivity].
Qed.

(** C9, as stated, fails on the preflight path: the body of the answer to an
    OPTIONS request is the empty string, which is not a JSON text. *)
Lemma preflight_body_is_not_json :
  exists r,
    Second.handler example_URL example_JSON_parse refuses_unescaped example_net in_order
      (example_env NoReply "2024-05-01T10:00:00.000Z") preflight = Fulfilled r
    /\ Response.headers r = cors_headers
    /\ Response.body r = EmptyBody
    /\ is_json_body (Response.body r) = false.
Proof. eexists. repeat split; reflexivity. Qed.

Ltac answered :=
  cbn; repeat split; try reflexivity; cbn; tauto.

(** C9, amended.  For every event, on every path of the handler of the
    second and of the public variant, the promise returned is never
    rejected, and the response it resolves with carries the same four
    CORS and content-type headers, a status code among 200, 400, 405, 429
    and 500, and a body that is a JSON text on every path except the OPTIONS
    preflight, whose body is the empty string.  The promise stays pending
    only when the provider never replies or a probe never settles. *)
Theorem handler_answers_with_cors_headers
    (new_URL : string -> option Url.t) (JSON_parse : string -> option json)
    (request_throws : string -> string -> bool)
    (net : Req.t -> outcome) (settle_order : nat -> list nat)
    (rateLimitCache : gmap string bool) (env : Env.t) (event : Event.t) :
  match Second.handler new_URL JSON_parse request_throws net settle_order env event with
  | Fulfilled r =>
      Response.headers r = cors_headers
      /\ is_json_body (Response.body r)
         = negb (String.eqb (Event.httpMethod event) "OPTIONS")
      /\ In (Response.statusCode r) [200; 400; 405; 500]%Z
  | Pending => Env.reply env = NoReply \/ ~ fair settle_order
  | Rejected _ => False
  end
  /\ match fst (Public.handler new_URL JSON_parse request_throws net rateLimitCache env event) with
     | Fulfilled r =>
         Response.headers r = cors_headers
         /\ is_json_body (Response.body r)
            = negb (String.eqb (Event.httpMethod event) "OPTIONS")
         /\ In (Response.statusCode r) [200; 400; 405; 429; 500]%Z
     | Pending => Env.reply env = NoReply
     | Rejected _ => False
     end.
Proof.
  split.
  - unfold Second.handler.
    destruct (String.eqb (Event.httpMethod event) "OPTIONS"); [answered|].
    destruct (negb (String.eqb (Event.httpMethod event) "POST")); [answered|].
    unfold Second.attempt.
    destruct (JSON_parse _) as [parsed|]; [|answered].
    destruct (destructure_domain parsed) as [domain|e]; [|answered].
    destruct (negb (json_truthy domain)); [answered|].
    destruct (lowered domain) as [lower|e]; [|answered].
    destruct (negb (truthy (Env.DATAFORSEO_LOGIN env))
              || negb (truthy (Env.DATAFORSEO_PASSWORD env))); [answered|].
    destruct (second_callDataForSEO_settles new_URL (Env.reply env))
      as [[Hreply ->] | [[error|results] ->]].
    + cbn. left. exact Hreply.
    + destruct (truthy error); answered.
    + destruct (filterDeadPages_rows new_URL request_throws net settle_order results
                  (strip_domain lower)) as [[-> | ->] Hfair].
      * cbn. right. intros Hf. specialize (Hfair Hf). discriminate.
      * answered.
  - unfold Public.handler.
    destruct (String.eqb (Event.httpMethod event) "OPTIONS"); [answered|].
    destruct (negb (String.eqb (Event.httpMethod event) "POST")); [answered|].
    unfold Public.attempt.
    destruct (JSON_parse _) as [parsed|]; [|answered].
    destruct (destructure_domain parsed) as [domain|e]; [|answered].
    destruct (negb (json_truthy domain)); [answered|].
    destruct (lowered domain) as [lower|e]; [|answered].
    destruct (bool_decide _); [answered|].
    destruct (negb (truthy (Env.DATAFORSEO_LOGIN env))
              || negb (truthy (Env.DATAFORSEO_PASSWORD env))); [answered|].
    destruct (public_callDataForSEO_settles new_URL request_throws net (Env.reply env))
      as [[Hreply ->] | [[error|results] ->]].
    + cbn. exact Hreply.
    + destruct (truthy error); answered.
    + answered.
Qed.

(** * Further properties of the code *)

(** ** Strings *)

#[local] Arguments String.append !s1 s2 : simpl nomatch.

Lemma string_all_append P (s t : string) :
  string_all P (s +:+ t) = string_all P s && string_all P t.
Proof.
  induction s as [|c s IH]; simpl; [reflexivity|].
  rewrite IH. apply andb_assoc.
Qed.

Lemma string_all_and P Q (s : string) :
  string_all P s = true -> string_all Q s = true ->
  string_all (fun c => P c && Q c) s = true.
Proof.
  induction s as [|c s IH]; simpl; [reflexivity|].
  intros [Hp Hs]%andb_true_iff [Hq Hs']%andb_true_iff.
  rewrite Hp, Hq, IH by assumption. reflexivity.
Qed.

Lemma string_all_substring P (s : string) : forall n m,
  string_all P s = true -> string_all P (String.substring n m s) = true.
Proof.
  induction s as [|c s IH]; intros [|n] [|m]; simpl; try reflexivity.
  - intros [Hc Hs]%andb_true_iff. rewrite Hc. simpl. apply IH, Hs.
  - intros [Hc Hs]%andb_true_iff. apply IH, Hs.
  - intros [Hc Hs]%andb_true_iff. apply IH, Hs.
Qed.

Lemma substring_whole (s : string) : String.substring 0 (String.length s) s = s.
Proof. induction s as [|c s IH]; simpl; [reflexivity|]. rewrite IH. reflexivity. Qed.

Lemma string_length_append (s t : string) :
  String.length (s +:+ t) = String.length s + String.length t.
Proof. induction s as [|c s IH]; simpl; [reflexivity|]. rewrite IH. reflexivity. Qed.

Lemma prefix_empty (s : string) : String.prefix "" s = true.
Proof. destruct s; reflexivity. Qed.

Lemma prefix_append (p t : string) : String.prefix p (p +:+ t) = true.
Proof.
  induction p as [|c p IH]; simpl; [apply prefix_empty|].
  destruct (ascii_dec c c); [exact IH|contradiction].
Qed.

Lemma prefix_split (p s : string) :
  String.prefix p s = true -> exists t, s = p +:+ t.
Proof.
  revert s. induction p as [|c p IH]; intros s.
  - intros _. exists s. reflexivity.
  - destruct s as [|d s]; [discriminate|]. simpl.
    destruct (ascii_dec c d) as [->|]; [|discriminate].
    intros H. destruct (IH s H) as [t ->]. exists t. reflexivity.
Qed.

Lemma prefix_of_prefix (p q s : string) :
  String.prefix (p +:+ q) s = true -> String.prefix p s = true.
Proof.
  revert s. induction p as [|c p IH]; intros s; [intros _; apply prefix_empty|].
  destruct s as [|d s]; [discriminate|]. simpl.
  destruct (ascii_dec c d); [apply IH|discriminate].
Qed.

Lemma prefix_string_all P (p s : string) :
  String.prefix p s = true -> string_all P s = true -> string_all P p = true.
Proof.
  intros [t ->]%prefix_split. rewrite string_all_append.
  intros [H _]%andb_true_iff. exact H.
Qed.

Lemma substring_skip (p t : string) :
  String.substring (String.length p) (String.length t) (p +:+ t) = t.
Proof. induction p as [|c p IH]; simpl; [apply substring_whole|exact IH]. Qed.

Lemma strip_prefix_append (p t : string) : strip_prefix p (p +:+ t) = t.
Proof.
  unfold strip_prefix. rewrite prefix_append, string_length_append.
  replace (String.length p + String.length t - String.length p)
    with (String.length t) by lia.
  apply substring_skip.
Qed.

Lemma strip_prefix_all P (p s : string) :
  string_all P s = true -> string_all P (strip_prefix p s) = true.
Proof.
  intros H. unfold strip_prefix. destruct (String.prefix p s); [|exact H].
  apply string_all_substring, H.
Qed.

(** A pattern without slash that matches at the start of [h ++ r] matches
    inside [h], when [r] is empty or begins with a slash. *)
Lemma prefix_before_slash (p h r : string) :
  string_all (not_char "/") p = true ->
  r = ""%string \/ String.prefix "/" r = true ->
  String.prefix p (h +:+ r) = String.prefix p h.
Proof.
  intros Hp Hr. revert h. induction p as [|c p IH]; intros h;
    [rewrite !prefix_empty; reflexivity|].
  simpl in Hp. apply andb_true_iff in Hp as [Hc Hp].
  destruct h as [|d h]; simpl.
  - destruct Hr as [-> | [t ->]%prefix_split]; [reflexivity|]. simpl.
    destruct (ascii_dec c "/") as [->|]; [|reflexivity].
    discriminate.
  - destruct (ascii_dec c d); [apply IH, Hp|reflexivity].
Qed.

Lemma string_append_assoc (p t r : string) : (p +:+ t) +:+ r = p +:+ (t +:+ r).
Proof. induction p as [|c p IH]; simpl; [reflexivity|]. rewrite IH. reflexivity. Qed.

Lemma strip_prefix_before_slash (p h r : string) :
  string_all (not_char "/") p = true ->
  r = ""%string \/ String.prefix "/" r = true ->
  strip_prefix p (h +:+ r) = strip_prefix p h +:+ r.
Proof.
  intros Hp Hr. destruct (String.prefix p h) eqn:Hph.
  - destruct (prefix_split p h Hph) as [t ->].
    rewrite strip_prefix_append, string_append_assoc.
    apply strip_prefix_append.
  - unfold strip_prefix. rewrite prefix_before_slash, Hph by assumption. reflexivity.
Qed.

Lemma before_first_excludes sep (s : string) :
  string_all (not_char sep) (before_first sep s) = true.
Proof.
  induction s as [|c s IH]; simpl; [reflexivity|].
  destruct (Ascii.eqb c sep) eqn:Hc; simpl; [reflexivity|].
  unfold not_char at 1. rewrite Hc. exact IH.
Qed.

Lemma before_first_all P sep (s : string) :
  string_all P s = true -> string_all P (before_first sep s) = true.
Proof.
  induction s as [|c s IH]; simpl; [reflexivity|].
  intros [Hc Hs]%andb_true_iff.
  destruct (Ascii.eqb c sep); simpl; [reflexivity|].
  rewrite Hc. apply IH, Hs.
Qed.

Lemma strip_final_slash_all P (s : string) :
  string_all P s = true -> string_all P (strip_final_slash s) = true.
Proof.
  induction s as [|c s IH]; [reflexivity|].
  intros H. simpl in H. apply andb_true_iff in H as [Hc Hs].
  destruct s as [|d s].
  - simpl. destruct (Ascii.eqb c "/"); simpl; [reflexivity|]. rewrite Hc. reflexivity.
  - change (strip_final_slash (String c (String d s)))
      with (String c (strip_final_slash (String d s))).
    simpl string_all. rewrite Hc. apply IH, Hs.
Qed.

(** Dropping a final slash does not change what precedes the first slash. *)
Lemma before_first_strip_final_slash (s : string) :
  before_first "/" (strip_final_slash s) = before_first "/" s.
Proof.
  induction s as [|c s IH]; [reflexivity|].
  destruct s as [|d s].
  - simpl. destruct (Ascii.eqb c "/") eqn:Hc; simpl; rewrite ?Hc; reflexivity.
  - change (strip_final_slash (String c (String d s)))
      with (String c (strip_final_slash (String d s))).
    change (before_first "/" (String c (strip_final_slash (String d s))))
      with (if Ascii.eqb c "/" then EmptyString
            else String c (before_first "/" (strip_final_slash (String d s)))).
    change (before_first "/" (String c (String d s)))
      with (if Ascii.eqb c "/" then EmptyString
            else String c (before_first "/" (String d s))).
    rewrite IH. reflexivity.
Qed.

Lemma before_first_host (h r : string) :
  string_all (not_char "/") h = true ->
  r = ""%string \/ String.prefix "/" r = true ->
  before_first "/" (h +:+ r) = h.
Proof.
  intros Hh Hr. induction h as [|c h IH]; simpl.
  - destruct Hr as [-> | [t ->]%prefix_split]; reflexivity.
  - simpl in Hh. apply andb_true_iff in Hh as [Hc Hh].
    unfold not_char in Hc. apply negb_true_iff in Hc. rewrite Hc.
    rewrite IH by exact Hh. reflexivity.
Qed.

Lemma lower_code_unit_not_upper c : is_upper (lower_code_unit c) = false.
Proof. destruct c as [[] [] [] [] [] [] [] []]; reflexivity. Qed.

Lemma lower_code_unit_slash c : Ascii.eqb (lower_code_unit c) "/" = Ascii.eqb c "/".
Proof. destruct c as [[] [] [] [] [] [] [] []]; reflexivity. Qed.

Lemma lower_code_unit_colon c : Ascii.eqb (lower_code_unit c) ":" = Ascii.eqb c ":".
Proof. destruct c as [[] [] [] [] [] [] [] []]; reflexivity. Qed.

(** The capital E with acute accent, code unit 201, is lowered to 233. *)
Example toLowerCase_accented_capital :
  toLowerCase (String (ascii_of_nat 201) "COLE.fr")
  = String (ascii_of_nat 233) "cole.fr".
Proof. reflexivity. Qed.

Lemma toLowerCase_append (s t : string) :
  toLowerCase (s +:+ t) = toLowerCase s +:+ toLowerCase t.
Proof. induction s as [|c s IH]; simpl; [reflexivity|]. rewrite IH. reflexivity. Qed.

Lemma toLowerCase_not_upper (s : string) :
  string_all (fun c => negb (is_upper c)) (toLowerCase s) = true.
Proof.
  induction s as [|c s IH]; simpl; [reflexivity|].
  rewrite lower_code_unit_not_upper, IH. reflexivity.
Qed.

Lemma toLowerCase_keeps_not_char x (s : string) :
  (forall c, Ascii.eqb (lower_code_unit c) x = Ascii.eqb c x) ->
  string_all (not_char x) (toLowerCase s) = string_all (not_char x) s.
Proof.
  intros Hx. induction s as [|c s IH]; simpl; [reflexivity|].
  unfold not_char at 1 3. rewrite Hx, IH. reflexivity.
Qed.

(** ** Domain normalization *)

(** X1.  Whatever string of code units below 256 is given as [domain], the
    normalized domain that the handlers compute contains no slash and no
    upper-case letter, be it one of [A]-[Z] or one of the accented capitals
    from 192 to 222. *)
Theorem normalized_domain_has_no_slash_or_capital (d : string) :
  string_all (fun c => not_char "/" c && negb (is_upper c))
    (strip_domain (toLowerCase d)) = true.
Proof.
  apply string_all_and; unfold strip_domain.
  - apply before_first_excludes.
  - apply before_first_all, strip_final_slash_all, strip_prefix_all.
    destruct (String.prefix "https://" (toLowerCase d));
      apply strip_prefix_all, toLowerCase_not_upper.
Qed.

Lemma strip_domain_host (h r : string) :
  string_all (not_char "/") h = true ->
  r = ""%string \/ String.prefix "/" r = true ->
  before_first "/" (strip_final_slash (strip_prefix "www." (h +:+ r)))
  = strip_prefix "www." h.
Proof.
  intros Hh Hr.
  rewrite strip_prefix_before_slash by (reflexivity || assumption).
  rewrite before_first_strip_final_slash.
  apply before_first_host; [apply strip_prefix_all, Hh|exact Hr].
Qed.

(** X2.  For a host without slash, followed by nothing or by a path that
    begins with a slash, and preceded by [https://] or [http://] in any case
    of letters or, when the host has no colon, by nothing: the normalized
    domain is the host in lower case, accented capitals included, without
    one leading [www.]. *)
Theorem normalization_strips_scheme_www_and_path (scheme host rest : string) :
  toLowerCase scheme = "https://"%string \/ toLowerCase scheme = "http://"%string
  \/ (scheme = ""%string /\ string_all (not_char ":") host = true) ->
  string_all (not_char "/") host = true ->
  rest = ""%string \/ String.prefix "/" rest = true ->
  strip_domain (toLowerCase (scheme +:+ host +:+ rest))
  = strip_prefix "www." (toLowerCase host).
Proof.
  intros Hscheme Hhost Hrest.
  assert (Hh : string_all (not_char "/") (toLowerCase host) = true).
  { rewrite toLowerCase_keeps_not_char; [exact Hhost|apply lower_code_unit_slash]. }
  assert (Hr : toLowerCase rest = ""%string
               \/ String.prefix "/" (toLowerCase rest) = true).
  { destruct Hrest as [-> | [t ->]%prefix_split]; [left; reflexivity|].
    right. simpl. apply prefix_empty. }
  rewrite !toLowerCase_append. unfold strip_domain.
  destruct Hscheme as [-> | [-> | [-> Hcolon]]].
  - rewrite prefix_append, strip_prefix_append. apply strip_domain_host; assumption.
  - replace (String.prefix "https://"
               ("http://" +:+ toLowerCase host +:+ toLowerCase rest)) with false
      by (simpl; destruct (toLowerCase host +:+ toLowerCase rest); reflexivity).
    rewrite strip_prefix_append. apply strip_domain_host; assumption.
  - change (toLowerCase "" +:+ ?x) with x.
    assert (Hc : string_all (not_char ":") (toLowerCase host) = true).
    { rewrite toLowerCase_keeps_not_char; [exact Hcolon|apply lower_code_unit_colon]. }
    assert (Hno : forall q,
              String.prefix ("http" +:+ q +:+ ":")
                (toLowerCase host +:+ toLowerCase rest) = true ->
              string_all (not_char "/") q = true -> False).
    { intros q Hq Hslash.
      rewrite prefix_before_slash in Hq; [|simpl; rewrite string_all_append, Hslash; reflexivity|exact Hr].
      pose proof (prefix_string_all _ _ _ Hq Hc) as Hp.
      simpl in Hp. rewrite string_all_append in Hp. simpl in Hp.
      rewrite andb_false_r in Hp. discriminate. }
    destruct (String.prefix "https://" (toLowerCase host +:+ toLowerCase rest)) eqn:H1.
    { exfalso. apply (Hno "s"%string); [|reflexivity].
      apply (prefix_of_prefix "https:" "//"), H1. }
    unfold strip_prefix at 2.
    destruct (String.prefix "http://" (toLowerCase host +:+ toLowerCase rest)) eqn:H2.
    { exfalso. apply (Hno ""%string); [|reflexivity].
      apply (prefix_of_prefix "http:" "//"), H2. }
    apply strip_domain_host; assumption.
Qed.

Lemma normalization_witness :
  strip_domain (toLowerCase ("HTTPS://" +:+ "www.Example.COM" +:+ "/Blog/post?id=1"))
  = strip_prefix "www." (toLowerCase "www.Example.COM").
Proof.
  apply (normalization_strips_scheme_www_and_path
           "HTTPS://" "www.Example.COM" "/Blog/post?id=1").
  - left. reflexivity.
  - reflexivity.
  - right. reflexivity.
Defined.

(** ** The rate-limit key *)

Lemma append_same_length_inj (s1 s2 u1 u2 : string) :
  s1 +:+ u1 = s2 +:+ u2 -> String.length u1 = String.length u2 ->
  s1 = s2 /\ u1 = u2.
Proof.
  revert s2. induction s1 as [|c s1 IH]; intros [|d s2]; simpl.
  - auto.
  - intros -> Hlen. simpl in Hlen. rewrite string_length_append in Hlen. lia.
  - intros <- Hlen. simpl in Hlen. rewrite string_length_append in Hlen. lia.
  - intros [= -> H] Hlen. destruct (IH s2 H Hlen) as [-> ->]. auto.
Qed.

(** X3.  Two (domain, date) pairs with dates of the same length, as the
    dates cut from [toISOString()] are, have the same rate-limit key only
    when both the domains and the dates are the same. *)
Theorem rateLimitKey_injective (d1 d2 today1 today2 : string) :
  String.length today1 = String.length today2 ->
  Public.rateLimitKey d1 today1 = Public.rateLimitKey d2 today2 ->
  d1 = d2 /\ today1 = today2.
Proof.
  unfold Public.rateLimitKey. intros Hlen Hkey.
  destruct (append_same_length_inj d1 d2 ("-" +:+ today1) ("-" +:+ today2) Hkey)
    as [-> Ht]; [simpl; congruence|].
  injection Ht as ->. auto.
Qed.

Lemma rateLimitKey_injective_witness :
  "my-site.com"%string = "my-site.com"%string
  /\ "2024-05-01"%string = "2024-05-01"%string.
Proof.
  apply (rateLimitKey_injective "my-site.com" "my-site.com" "2024-05-01" "2024-05-01");
    reflexivity.
Defined.

(** ** The URL that is probed *)

(** X4.  [urlToCheck] is falsy exactly when the item has neither a target
    URL nor a path, and the item is then skipped without a probe.  Otherwise
    it begins with [http]: a value that does not is given the prefix
    [https://], the domain and exactly one slash, whether or not it begins
    with a slash itself. *)
Theorem url_to_check_is_absolute
    (new_URL : string -> option Url.t) (request_throws : string -> string -> bool)
    (net : Req.t -> outcome)
    (site : string) (item : Item.t) :
  (truthy (Second.url_to_check site item) = false
   <-> truthy (Item.target_url item) = false /\ truthy (Item.dead_page item) = false)
  /\ (truthy (Second.url_to_check site item) = false ->
      Second.check new_URL request_throws net site item = Fulfilled None)
  /\ (truthy (Second.url_to_check site item) = true ->
      starts_with (Second.url_to_check site item) "http" = true)
  /\ (forall p,
        js_or (Item.target_url item) (Item.dead_page item) = JString p ->
        p <> ""%string -> String.prefix "http" p = false ->
        Second.url_to_check site item
        = JString ("https://" +:+ site +:+ "/" +:+ strip_prefix "/" p)).
Proof.
  assert (Hu : truthy (js_or (Item.target_url item) (Item.dead_page item)) = false
               <-> truthy (Item.target_url item) = false
                   /\ truthy (Item.dead_page item) = false).
  { unfold js_or. destruct (truthy (Item.target_url item)) eqn:Ht.
    - rewrite Ht. split; [discriminate|intros [? _]; discriminate].
    - split; [auto|intros [_ H]; exact H]. }
  split; [|split; [|split]].
  - unfold Second.url_to_check.
    destruct (truthy (js_or (Item.target_url item) (Item.dead_page item))) eqn:Htu.
    + split; [|intros H; apply Hu in H; discriminate].
      destruct (starts_with _ "http"); simpl; [rewrite Htu|]; discriminate.
    + simpl. rewrite Htu. split; [intros _; apply Hu; reflexivity|reflexivity].
  - intros H. unfold Second.check. cbv zeta. rewrite H. reflexivity.
  - unfold Second.url_to_check.
    destruct (truthy (js_or (Item.target_url item) (Item.dead_page item))) eqn:Htu;
      simpl; [|congruence].
    destruct (starts_with _ "http") eqn:Hs; simpl; [intros _; exact Hs|].
    intros _. reflexivity.
  - intros p Hp Hne Hhttp. unfold Second.url_to_check. rewrite Hp. simpl.
    destruct (String.eqb p "") eqn:He; [apply String.eqb_eq in He; contradiction|].
    unfold starts_with. simpl. rewrite Hhttp. simpl. f_equal. f_equal.
    destruct (String.prefix "/" p) eqn:Hslash.
    + destruct (prefix_split "/" p Hslash) as [t ->].
      rewrite strip_prefix_append. reflexivity.
    + unfold strip_prefix. rewrite Hslash. reflexivity.
Qed.

Lemma url_to_check_witness :
  Second.url_to_check "example.com" item_bare_path
  = JString ("https://" +:+ "example.com" +:+ "/" +:+ strip_prefix "/" "old/page").
Proof.
  refine (proj2 (proj2 (proj2 (url_to_check_is_absolute example_URL refuses_unescaped example_net
            "example.com" item_bare_path))) "old/page" eq_refl _ eq_refl).
  discriminate.
Defined.

(** ** Shape of the grouped store *)

Lemma own_lookup_None (st : store) k : own_lookup st k = None -> ~ In k (map fst st).
Proof.
  induction st as [|[k' a] st IH]; simpl; [tauto|].
  destruct (String.eqb k' k) eqn:Hk; [discriminate|].
  intros H [Heq | Hin]; [|exact (IH H Hin)].
  subst. rewrite String.eqb_refl in Hk. discriminate.
Qed.

Lemma own_update_keys (st : store) k f : map fst (own_update st k f) = map fst st.
Proof.
  induction st as [|[k' a] st IH]; simpl; [reflexivity|].
  destruct (String.eqb k' k); simpl; congruence.
Qed.

Lemma own_update_sound (st : store) k f :
  counts_one f -> Forall aggregate_sound st -> Forall aggregate_sound (own_update st k f).
Proof.
  intros Hf. induction 1 as [|[k' a] st Ha Hst IH]; simpl; [constructor|].
  destruct (String.eqb k' k); constructor; auto.
  destruct Ha as (Hkey & Hcount & Hdom). destruct (Hf a) as (Hd & Hc & Hp).
  simpl in *. split; [|split]; simpl.
  - rewrite Hd. exact Hkey.
  - rewrite Hc. lia.
  - apply Hp, Hdom.
Qed.

Lemma group_under_grouped (st st' : store) targetPath targetUrl f on_inherited :
  counts_one f ->
  (forall st'', on_inherited = Normal st'' -> st'' = st) ->
  grouped st ->
  group_under st targetPath targetUrl f on_inherited = Normal st' ->
  grouped st' /\ length st' <= S (length st).
Proof.
  intros Hf Hinh [Hkeys Hsound]. unfold group_under, get_property.
  destruct (own_lookup st (js_to_string targetPath)) as [a|] eqn:Hl.
  - intros [= <-]. split.
    + split; [rewrite own_update_keys; exact Hkeys|apply own_update_sound; assumption].
    + rewrite <- (length_map fst), own_update_keys, length_map. lia.
  - destruct (inherited (js_to_string targetPath)).
    + intros H. rewrite (Hinh _ H). split; [split; assumption|lia].
    + intros [= <-]. unfold own_insert. split.
      * split.
        -- rewrite map_app. simpl. apply NoDup_app. split; [exact Hkeys|]. split.
           ++ intros x Hx [<-|[]]%list_elem_of_In.
              apply list_elem_of_In in Hx. exact (own_lookup_None _ _ Hl Hx).
           ++ apply NoDup_singleton.
        -- apply Forall_app. split; [exact Hsound|]. constructor; [|constructor].
           destruct (Hf (Acc.fresh targetPath targetUrl)) as (Hd & Hc & Hp).
           split; [|split]; simpl.
           ++ rewrite Hd. reflexivity.
           ++ rewrite Hc. lia.
           ++ apply Hp. split; simpl; [constructor|lia].
      * rewrite length_app. simpl. lia.
Qed.

Lemma add_domain_counted d a :
  domains_counted a -> domains_counted (add_domain d (Acc.incr a)).
Proof.
  intros [Hnd Hlen]. unfold add_domain. simpl.
  destruct (includes (Acc.referring_domains a) d) eqn:Hin; split; simpl;
    try assumption; try lia.
  - apply NoDup_app. split; [exact Hnd|]. split; [|apply NoDup_singleton].
    intros x Hx [<-|[]]%list_elem_of_In.
    apply list_elem_of_In, includes_In in Hx. congruence.
  - rewrite length_app. simpl. lia.
Qed.

Lemma first_mutate_counts_one link : counts_one (First.mutate link).
Proof.
  intros a. unfold First.mutate. split; [|split].
  - unfold add_domain. simpl. destruct (includes _ _); reflexivity.
  - unfold add_domain. simpl. destruct (includes _ _); reflexivity.
  - intros H. apply (add_domain_counted (domain_from link)) in H.
    destruct H as [Hnd Hlen]. split; simpl; assumption.
Qed.

Lemma public_mutate_counts_one link : counts_one (Public.mutate link).
Proof. exact (first_mutate_counts_one link). Qed.

Lemma second_mutate_counts_one link : counts_one (Second.mutate link).
Proof.
  intros a. unfold Second.mutate. cbv zeta.
  destruct (truthy (domain_from link)); simpl;
    [|split; [|split]; simpl; try reflexivity; intros [? ?]; split; simpl; [assumption|lia]].
  destruct (includes (Acc.referring_domains a) (domain_from link)) eqn:Hin; simpl;
    [split; [|split]; simpl; try reflexivity; intros [? ?]; split; simpl; [assumption|lia]|].
  split; [|split]; simpl; try reflexivity.
  intros [Hnd Hlen]. split; simpl.
  - apply NoDup_app. split; [exact Hnd|]. split; [|apply NoDup_singleton].
    intros x Hx [<-|[]]%list_elem_of_In.
    apply list_elem_of_In, includes_In in Hx. congruence.
  - rewrite length_app. simpl. lia.
Qed.

Lemma run_loop_grouped (step : store -> edge -> completion store) (edges : list edge) :
  (forall st link st', grouped st -> step st link = Normal st' ->
                       grouped st' /\ length st' <= S (length st)) ->
  forall st st', grouped st -> run_loop step st edges = Normal st' ->
                 grouped st' /\ length st' <= length st + length edges.
Proof.
  intros Hstep. induction edges as [|link rest IH]; intros st st' Hst; simpl.
  - intros [= <-]. split; [exact Hst|lia].
  - destruct (step st link) as [st1|] eqn:H1; [|discriminate].
    destruct (Hstep _ _ _ Hst H1) as [Hg Hl]. intros Hrun.
    destruct (IH _ _ Hg Hrun) as [Hg' Hl']. split; [exact Hg'|lia].
Qed.

(** X5.  Whenever a grouping loop of any of the three variants completes,
    the keys of [groupedByTarget] are distinct, each aggregate is stored
    under the string of its [dead_page], has counted at least one backlink,
    and holds distinct referring domains, no more than its backlinks; there
    are no more aggregates than edges. *)
Theorem grouping_yields_sound_aggregates
    (new_URL : string -> option Url.t) (edges : list edge) (st : store) :
  First.group new_URL edges = Normal st
  \/ Second.group new_URL edges = Normal st
  \/ Public.group new_URL edges = Normal st ->
  grouped st /\ length st <= length edges.
Proof.
  assert (Hnil : grouped []) by (split; constructor).
  intros [H | [H | H]]; revert H.
  - apply (run_loop_grouped (First.step new_URL) edges); [|exact Hnil].
    intros st0 link st1 Hst. unfold First.step.
    apply group_under_grouped; [apply first_mutate_counts_one|discriminate|exact Hst].
  - apply (run_loop_grouped (Second.step new_URL) edges); [|exact Hnil].
    intros st0 link st1 Hst. unfold Second.step.
    destruct (truthy (url_to link)); simpl.
    + apply group_under_grouped; [apply second_mutate_counts_one| |exact Hst].
      intros st''. destruct (truthy (domain_from link)); congruence.
    + intros [= <-]. split; [exact Hst|lia].
  - apply (run_loop_grouped (Public.step new_URL) edges); [|exact Hnil].
    intros st0 link st1 Hst. unfold Public.step.
    destruct (new_URL _); [|discriminate].
    apply group_under_grouped; [apply public_mutate_counts_one|discriminate|exact Hst].
Qed.

Lemma grouping_yields_sound_aggregates_witness :
  exists st, Second.group example_URL mixed_edges = Normal st
             /\ grouped st /\ length st <= length mixed_edges.
Proof.
  eexists. split; [reflexivity|].
  apply (grouping_yields_sound_aggregates example_URL mixed_edges).
  right. left. reflexivity.
Defined.

(** ** Top referrers of each variant *)

Lemma run_loop_Forall (P : string * Acc.t -> Prop)
    (step : store -> edge -> completion store) (edges : list edge) :
  (forall st link st', Forall P st -> step st link = Normal st' -> Forall P st') ->
  forall st st', Forall P st -> run_loop step st edges = Normal st' -> Forall P st'.
Proof.
  intros Hstep. induction edges as [|link rest IH]; intros st st' Hst; simpl.
  - intros [= <-]. exact Hst.
  - destruct (step st link) as [st1|] eqn:H1; [|discriminate].
    apply IH. exact (Hstep _ _ _ Hst H1).
Qed.

Lemma second_mutate_top_first_domains link a :
  top_are_first_domains a -> top_are_first_domains (Second.mutate link a).
Proof.
  intros [Htop Htruthy]. unfold Second.mutate. cbv zeta.
  destruct (truthy (domain_from link)) eqn:Hd; simpl; [|split; assumption].
  destruct (includes (Acc.referring_domains a) (domain_from link)); simpl;
    [split; assumption|].
  assert (Hlen : length (Acc.top_referrers a)
                 = Nat.min 10 (length (Acc.referring_domains a))).
  { rewrite <- (length_map domain), Htop. apply length_firstn. }
  split; simpl.
  - destruct (length (Acc.top_referrers a) <? 10) eqn:Hlt.
    + apply Nat.ltb_lt in Hlt.
      rewrite map_app, Htop. simpl.
      rewrite !firstn_all2 by (rewrite ?length_app; simpl; lia). reflexivity.
    + apply Nat.ltb_ge in Hlt. rewrite Htop, firstn_app.
      replace (10 - length (Acc.referring_domains a)) with 0 by lia.
      simpl. rewrite app_nil_r. reflexivity.
  - apply Forall_app. split; [exact Htruthy|]. constructor; [exact Hd|constructor].
Qed.

Lemma first_mutate_top_first_links link a :
  top_are_first_links a -> top_are_first_links (First.mutate link a).
Proof.
  unfold top_are_first_links, First.mutate, add_domain. intros Hlen.
  destruct (includes _ _); simpl;
    (destruct (length (Acc.top_referrers a) <? 10) eqn:Hlt;
     [apply Nat.ltb_lt in Hlt; rewrite length_app; simpl; lia
     |apply Nat.ltb_ge in Hlt; lia]).
Qed.

(** X6.  In the second variant the top referrers of every aggregate are
    its first ten referring domains, in the order in which the domains were
    first seen, and every referring domain is a non-empty string. *)
Theorem second_top_referrers_are_first_ten_domains
    (new_URL : string -> option Url.t) (items : list edge) (st : store) :
  Second.group new_URL items = Normal st ->
  Forall (fun p => top_are_first_domains (snd p)) st.
Proof.
  apply (run_loop_Forall _ (Second.step new_URL) items); [|constructor].
  intros st0 link st1 Hst. unfold Second.step.
  destruct (truthy (url_to link)); simpl; [|intros [= <-]; exact Hst].
  intros Hg. eapply group_under_Forall; [ | | |exact Hst|exact Hg].
  - apply second_mutate_top_first_domains.
  - split; simpl; [reflexivity|constructor].
  - intros st''. destruct (truthy (domain_from link)); congruence.
Qed.

Lemma second_top_referrers_witness :
  exists st, Second.group example_URL scenario_edges = Normal st
             /\ Forall (fun p => top_are_first_domains (snd p)) st.
Proof.
  eexists. split; [reflexivity|].
  apply (second_top_referrers_are_first_ten_domains example_URL scenario_edges).
  reflexivity.
Defined.

(** X7.  In the first and public variants every aggregate keeps one top
    referrer per backlink up to ten: their number is the smaller of 10 and
    [backlink_count]. *)
Theorem first_and_public_top_referrers_follow_backlinks
    (new_URL : string -> option Url.t) (backlinks : list edge) (st : store) :
  First.group new_URL backlinks = Normal st
  \/ Public.group new_URL backlinks = Normal st ->
  Forall (fun p => top_are_first_links (snd p)) st.
Proof.
  intros [H | H]; revert H.
  - apply (run_loop_Forall _ (First.step new_URL) backlinks); [|constructor].
    intros st0 link st1 Hst Hg. unfold First.step in Hg.
    eapply group_under_Forall; [ | | |exact Hst|exact Hg].
    + apply first_mutate_top_first_links.
    + reflexivity.
    + discriminate.
  - apply (run_loop_Forall _ (Public.step new_URL) backlinks); [|constructor].
    intros st0 link st1 Hst. unfold Public.step.
    destruct (new_URL _); [|discriminate]. intros Hg.
    eapply group_under_Forall; [ | | |exact Hst|exact Hg].
    + apply (first_mutate_top_first_links link).
    + reflexivity.
    + discriminate.
Qed.

Lemma first_top_referrers_witness :
  exists st, First.group example_URL scenario_edges = Normal st
             /\ Forall (fun p => top_are_first_links (snd p)) st.
Proof.
  eexists. split; [reflexivity|].
  apply (first_and_public_top_referrers_follow_backlinks example_URL scenario_edges).
  left. reflexivity.
Defined.

(** ** The results of [callDataForSEO] *)

Lemma omap_cons {B C : Type} (f : B -> option C) (x : B) (l : list B) :
  omap f (x :: l) = match f x with Some y => y :: omap f l | None => omap f l end.
Proof. reflexivity. Qed.

(** [Object.values] lists every own property once. *)
Lemma object_values_perm (st : store) : Permutation (object_values st) (map snd st).
Proof.
  unfold object_values.
  rewrite (js_sort_perm _ (indexed_entries st)).
  unfold indexed_entries, named_entries.
  induction st as [|[k a] st IH]; [reflexivity|].
  rewrite !omap_cons. simpl fst. simpl snd.
  destruct (array_index k); simpl.
  - constructor. exact IH.
  - rewrite <- Permutation_middle. constructor. exact IH.
Qed.

Lemma ranked_results (l : list Item.t) :
  exists all,
    Permutation all l
    /\ ranked Item.backlink_count all
    /\ slice 0 1000 (js_sort Item.by_backlinks_desc l) = firstn 1000 all.
Proof.
  exists (js_sort Item.by_backlinks_desc l). split; [apply js_sort_perm|].
  split; [apply js_sort_ranked, item_compare_key|apply slice_from_start].
Qed.

(** X8.  [callDataForSEO] of the first and second variants never rejects
    and stays pending only when the provider never replies.  An error result
    carries a truthy message.  A list of results comes from an accepted reply
    whose grouping completed, and consists of its aggregates sorted by
    [backlink_count], largest first, cut after 1000: all of them when there
    are at most 1000. *)
Theorem callDataForSEO_returns_top_aggregates
    (new_URL : string -> option Url.t) (reply : provider_reply) :
  let describes (group : list edge -> completion store)
                (result : promise (api_result Item.t)) :=
    match result with
    | Pending => reply = NoReply
    | Rejected _ => False
    | Fulfilled (ApiError error) => truthy error = true
    | Fulfilled (ApiResults results) =>
        exists items st all,
          reply = Accepted items
          /\ group items = Normal st
          /\ Permutation all (map Item.of_acc (map snd st))
          /\ ranked Item.backlink_count all
          /\ results = firstn 1000 all
          /\ (length st <= 1000 -> results = all)
    end in
  describes (First.group new_URL) (First.callDataForSEO new_URL reply)
  /\ describes (Second.group new_URL) (Second.callDataForSEO new_URL reply).
Proof.
  cbv zeta. split.
  - destruct reply as [| | |m|items]; simpl; try reflexivity;
      [apply api_error_truthy|].
    destruct (First.group new_URL items) as [st|] eqn:Hg; [|reflexivity].
    destruct (ranked_results (map Item.of_acc (object_values st)))
      as (all & Hperm & Hranked & Hslice).
    exists items, st, all. rewrite Hslice.
    assert (Hall : Permutation all (map Item.of_acc (map snd st))).
    { rewrite Hperm. apply Permutation_map, object_values_perm. }
    repeat split; try assumption.
    intros Hlen. apply firstn_all2.
    rewrite (Permutation_length Hall), !length_map. exact Hlen.
  - destruct reply as [| | |m|items]; simpl; try reflexivity;
      [apply api_error_truthy|].
    destruct (Second.group new_URL items) as [st|] eqn:Hg; [|reflexivity].
    destruct (ranked_results (map Item.of_acc (object_values st)))
      as (all & Hperm & Hranked & Hslice).
    exists items, st, all. rewrite Hslice.
    assert (Hall : Permutation all (map Item.of_acc (map snd st))).
    { rewrite Hperm. apply Permutation_map, object_values_perm. }
    repeat split; try assumption.
    intros Hlen. apply firstn_all2.
    rewrite (Permutation_length Hall), !length_map. exact Hlen.
Qed.

(** ** Stability of the sort *)

Section SortStability.
Context {A : Type}.
Variable key : A -> nat.
Variable compare : A -> A -> Z.
Hypothesis compare_key : forall a b, (0 < compare a b)%Z <-> key a < key b.

Lemma insert_sorted_same_key k x l :
  List.filter (fun a => key a =? k) (insert_sorted compare x l)
  = List.filter (fun a => key a =? k) (x :: l).
Proof.
  induction l as [|y l IH]; [reflexivity|]. simpl insert_sorted.
  destruct (0 <? compare x y)%Z eqn:Hc; [|reflexivity].
  apply Z.ltb_lt, compare_key in Hc.
  simpl. simpl in IH. rewrite IH.
  destruct (key x =? k) eqn:Hx; [|reflexivity].
  apply Nat.eqb_eq in Hx.
  replace (key y =? k) with false by (symmetry; apply Nat.eqb_neq; lia).
  reflexivity.
Qed.

(** Elements with the same key come out in the order in which they went in. *)
Lemma js_sort_stable k l :
  List.filter (fun a => key a =? k) (js_sort compare l)
  = List.filter (fun a => key a =? k) l.
Proof.
  induction l as [|x l IH]; [reflexivity|]. simpl js_sort.
  rewrite insert_sorted_same_key. simpl. rewrite IH. reflexivity.
Qed.
End SortStability.

(** ** What the dead-page filter reports *)

Section FilterReports.
Variable new_URL : string -> option Url.t.
Variable request_throws : string -> string -> bool.
Variable net : Req.t -> outcome.


Lemma in_omap {B C : Type} (f : B -> option C) (l : list B) (y : C) :
  In y (omap f l) <-> exists x, In x l /\ f x = Some y.
Proof.
  induction l as [|x l IH]; [simpl; split; [tauto|intros (? & [] & _)]|].
  rewrite omap_cons. destruct (f x) as [z|] eqn:Hx; simpl; rewrite IH; split.
  - intros [-> | (x' & Hin & Hf)]; eauto.
  - intros (x' & [-> | Hin] & Hf); [left; congruence|right; eauto].
  - intros (x' & Hin & Hf); eauto.
  - intros (x' & [-> | Hin] & Hf); [congruence|eauto].
Qed.

(** X10.  When every probe settles, [filterDeadPages] resolves, and its
    rows are exactly the rows that [check] yields for the first 100 items:
    an item beyond the hundredth is never reported, and no dead page among
    the first hundred is left out. *)
Theorem filterDeadPages_reports_checked_dead_pages
    (settle_order : nat -> list nat) (results : list Item.t) (site : string) :
  fair settle_order ->
  exists rows,
    Second.filterDeadPages new_URL request_throws net settle_order results site = Fulfilled rows
    /\ forall row,
         In row rows
         <-> exists item,
               In item (firstn 100 results)
               /\ Second.check new_URL request_throws net site item = Fulfilled (Some row).
Proof.
  intros Hfair. exists (dead_rows new_URL request_throws net results site).
  split; [apply filterDeadPages_rows, Hfair|].
  intros row. unfold dead_rows.
  pose proof (js_sort_perm Dead.by_backlinks_desc
                (omap (check_value new_URL request_throws net site) (firstn 100 results))) as Hperm.
  split.
  - intros Hin. apply (Permutation_in _ Hperm), in_omap in Hin.
    destruct Hin as (item & Hin & Hc). exists item. split; [exact Hin|].
    rewrite check_fulfilled, Hc. reflexivity.
  - intros (item & Hin & Hc).
    apply (Permutation_in _ (Permutation_sym Hperm)), in_omap.
    exists item. split; [exact Hin|]. rewrite check_fulfilled in Hc. congruence.
Qed.

(** X11.  The sort of [filterDeadPages] is stable: the rows that have the
    same [backlink_count] appear in the order of their items. *)
Theorem filterDeadPages_keeps_ties_in_item_order
    (settle_order : nat -> list nat) (results : list Item.t) (site : string) (k : nat) :
  fair settle_order ->
  exists rows,
    Second.filterDeadPages new_URL request_throws net settle_order results site = Fulfilled rows
    /\ List.filter (fun row => Dead.backlink_count row =? k) rows
       = List.filter (fun row => Dead.backlink_count row =? k)
           (omap (check_value new_URL request_throws net site) (firstn 100 results)).
Proof.
  intros Hfair. exists (dead_rows new_URL request_throws net results site).
  split; [apply filterDeadPages_rows, Hfair|].
  apply js_sort_stable, dead_compare_key.
Qed.
End FilterReports.


Lemma in_order_fair : fair in_order.
Proof. intros i j Hj. unfold in_order. apply in_seq. lia. Qed.

Lemma filterDeadPages_reports_witness :
  exists rows,
    Second.filterDeadPages example_URL refuses_unescaped example_net in_order [item_a] "example.com"
    = Fulfilled rows
    /\ forall row,
         In row rows
         <-> exists item,
               In item (firstn 100 [item_a])
               /\ Second.check example_URL refuses_unescaped example_net "example.com" item
                  = Fulfilled (Some row).
Proof.
  exact (filterDeadPages_reports_checked_dead_pages example_URL refuses_unescaped example_net
           in_order [item_a] "example.com" in_order_fair).
Defined.

Lemma filterDeadPages_ties_witness :
  exists rows,
    Second.filterDeadPages example_URL refuses_unescaped example_net in_order [item_a; item_a]
        "example.com"
    = Fulfilled rows
    /\ List.filter (fun row => Dead.backlink_count row =? 3) rows
       = List.filter (fun row => Dead.backlink_count row =? 3)
           (omap (check_value example_URL refuses_unescaped example_net "example.com")
              (firstn 100 [item_a; item_a])).
Proof.
  exact (filterDeadPages_keeps_ties_in_item_order example_URL refuses_unescaped example_net
           in_order [item_a; item_a] "example.com" 3 in_order_fair).
Defined.

(** ** Requests issued by a probe *)

(** X12.  A probe issues no request and resolves to 0 when the URL does not
    parse.  It issues none either when the call of [request] throws on the
    options built from the URL: the promise of the second variant is then
    rejected, that of the public variant resolves to 0.  Otherwise a probe of the second variant
        issues
    one HEAD request to the host and path of the URL, followed by one GET
    request with the same options exactly when the HEAD request got no
    response, and a probe of the public variant issues one HEAD request.
    So the second variant never issues more than two requests, never a GET
    first, and the public variant never more than one. *)
Theorem probe_requests_are_bounded
    (new_URL : string -> option Url.t) (request_throws : string -> string -> bool)
    (net : Req.t -> outcome) (url : string) :
  let second := Second.checkUrlStatus new_URL request_throws net url in
  let public := Public.checkUrlStatus new_URL request_throws net url in
  match new_URL url with
  | None => second = {| settled := Fulfilled 0%Z; issued := [] |}
            /\ public = {| settled := Fulfilled 0%Z; issued := [] |}
  | Some u =>
      let head := Second.head_options u in
      Req.method head = "HEAD"%string
      /\ Req.hostname head = Url.hostname u
      /\ Req.path head = (Url.pathname u +:+ Url.search u)%string
      /\ if request_throws (Url.hostname u) (Url.pathname u +:+ Url.search u)
         then second = {| settled := Rejected TypeError; issued := [] |}
              /\ public = {| settled := Fulfilled 0%Z; issued := [] |}
         else (issued second = [head]
               /\ (exists statusCode, net head = Response statusCode)
               \/ issued second = [head; Req.with_method "GET" head]
                  /\ (net head = ErrorEvent \/ net head = TimeoutEvent))
              /\ exists r, issued public = [r]
                           /\ Req.method r = "HEAD"%string
                           /\ Req.hostname r = Url.hostname u
                           /\ Req.path r = Req.path head
  end
  /\ length (issued second) <= 2
  /\ length (issued public) <= 1.
Proof.
  cbv zeta. unfold Second.checkUrlStatus, Public.checkUrlStatus.
  destruct (new_URL url) as [u|]; [|simpl; repeat split; lia].
  simpl.
  destruct (request_throws (Url.hostname u) (Url.pathname u +:+ Url.search u))
    eqn:Hthrows; [simpl; repeat split; lia|].
  destruct (net (Second.head_options u)) eqn:Hhead; simpl; rewrite ?Hthrows; simpl.
  - repeat split; try lia; [left; eauto|]. eexists. repeat split.
  - repeat split; try lia; [right; auto|]. eexists. repeat split.
  - repeat split; try lia; [right; auto|]. eexists. repeat split.
Qed.

(** ** The rows of the public variant *)

Lemma check_each_sources (new_URL : string -> option Url.t) (request_throws : string -> string
    -> bool)
    (net : Req.t -> outcome)
    (items : list Acc.t) : forall results,
  exists rows,
    Public.check_each new_URL request_throws net items results = Fulfilled (results ++ rows)
    /\ length rows <= length items
    /\ Forall (fun row => exists item status,
                 In item items /\ row = Marked.mark status item
                 /\ (status = 404%Z \/ status = 410%Z)) rows.
Proof.
  induction items as [|item items IH]; intros results; simpl.
  - exists []. rewrite app_nil_r. repeat split; simpl; [lia|constructor].
  - assert (Hmore : forall row rows,
              Forall (fun row => exists item' status,
                        In item' items /\ row = Marked.mark status item'
                        /\ (status = 404%Z \/ status = 410%Z)) rows ->
              (exists status, row = Marked.mark status item
                              /\ (status = 404%Z \/ status = 410%Z)) ->
              Forall (fun row => exists item' status,
                        (item = item' \/ In item' items)
                        /\ row = Marked.mark status item'
                        /\ (status = 404%Z \/ status = 410%Z)) (row :: rows)).
    { intros row rows Hrows (status & -> & Hs). constructor.
      - exists item, status. auto.
      - eapply Forall_impl; [exact Hrows|]. simpl.
        intros r (i & s & Hi & Hr & Hs'). exists i, s. auto. }
    destruct (public_probe_settles new_URL request_throws net (js_to_string (Acc.target_url item)))
      as [status ->].
    destruct (status =? 404)%Z eqn:H404; simpl.
    { apply Z.eqb_eq in H404. subst status. simpl.
      destruct (IH (results ++ [Marked.mark 404 item])) as (rows & -> & Hlen & Hst).
      exists (Marked.mark 404 item :: rows). rewrite <- app_assoc.
      repeat split; simpl; [lia|apply Hmore; eauto]. }
    destruct (status =? 410)%Z eqn:H410; simpl.
    { apply Z.eqb_eq in H410. subst status. simpl.
      destruct (IH (results ++ [Marked.mark 410 item])) as (rows & -> & Hlen & Hst).
      exists (Marked.mark 410 item :: rows). rewrite <- app_assoc.
      repeat split; simpl; [lia|apply Hmore; eauto]. }
    destruct (status =? 0)%Z eqn:H0.
    { destruct (IH (results ++ [Marked.mark 404 item])) as (rows & -> & Hlen & Hst).
      exists (Marked.mark 404 item :: rows). rewrite <- app_assoc.
      repeat split; simpl; [lia|apply Hmore; eauto]. }
    destruct (IH results) as (rows & -> & Hlen & Hst).
    exists rows. repeat split; [lia|].
    eapply Forall_impl; [exact Hst|]. simpl.
    intros r (i & s & Hi & Hr & Hs'). exists i, s. auto.
Qed.

(** X13.  In the public variant a list of results holds at most 100 rows,
    so that [slice(0, 1000)] never cuts it, and every row is one of the
    first 100 aggregates of [Object.values] with its backlink count, target
    and top referrers unchanged, its referring domains replaced by their
    number and its status code set to 404 or 410. *)
Theorem public_results_are_marked_aggregates
    (new_URL : string -> option Url.t) (request_throws : string -> string -> bool)
    (net : Req.t -> outcome)
    (backlinks : list edge) (rows : list Marked.t) :
  Public.callDataForSEO new_URL request_throws net (Accepted backlinks) = Fulfilled (ApiResults
      rows) ->
  exists st,
    Public.group new_URL backlinks = Normal st
    /\ length rows <= 100
    /\ Forall (fun row => exists item status,
                 In item (firstn 100 (object_values st))
                 /\ row = Marked.mark status item
                 /\ (status = 404%Z \/ status = 410%Z)) rows.
Proof.
  simpl. destruct (Public.group new_URL backlinks) as [st|]; [|discriminate].
  destruct (check_each_sources new_URL request_throws net (slice 0 100 (object_values st)) [])
    as (found & -> & Hlen & Hsrc).
  simpl. rewrite !slice_from_start in *. intros [= <-].
  exists st. split; [reflexivity|].
  assert (Hl : length (js_sort Marked.by_backlinks_desc found) <= 100).
  { rewrite js_sort_length. rewrite length_firstn in Hlen. lia. }
  rewrite firstn_all2 by lia. split; [exact Hl|].
  apply js_sort_Forall, Hsrc.
Qed.

Lemma public_results_witness :
  exists rows st,
    Public.group example_URL scenario_edges = Normal st
    /\ length rows <= 100
    /\ Forall (fun row => exists item status,
                 In item (firstn 100 (object_values st))
                 /\ row = Marked.mark status item
                 /\ (status = 404%Z \/ status = 410%Z)) rows.
Proof.
  eexists.
  apply (public_results_are_marked_aggregates example_URL refuses_unescaped unreachable
      scenario_edges).
  vm_compute. reflexivity.
Defined.

(** ** The handlers *)

(** X14.  Whatever the request, the environment and the network, the public
    handler never removes or changes an entry of the rate-limit cache; it
    adds at most one entry, with value [true], and only when it answers with
    status 200. *)
Theorem rate_limit_cache_only_grows
    (new_URL : string -> option Url.t) (JSON_parse : string -> option json)
    (request_throws : string -> string -> bool)
    (net : Req.t -> outcome) (rateLimitCache : gmap string bool)
    (env : Env.t) (event : Event.t) :
  let result := fst (Public.handler new_URL JSON_parse request_throws net rateLimitCache env
      event) in
  let cache := snd (Public.handler new_URL JSON_parse request_throws net rateLimitCache env
      event) in
  subseteq rateLimitCache cache
  /\ (cache = rateLimitCache
      \/ exists key r, rateLimitCache !! key = None
                       /\ cache = <[key := true]> rateLimitCache
                       /\ result = Fulfilled r
                       /\ Response.statusCode r = 200%Z).
Proof.
  cbv zeta. unfold Public.handler.
  destruct (Event.httpMethod event =? "OPTIONS")%string; [simpl; auto|].
  destruct (negb (Event.httpMethod event =? "POST")%string); [simpl; auto|].
  unfold Public.attempt.
  destruct (JSON_parse _) as [parsed|]; [|simpl; auto].
  destruct (destructure_domain parsed) as [domain|]; [|simpl; auto].
  destruct (negb (json_truthy domain)); [simpl; auto|].
  destruct (lowered domain) as [lower|]; [|simpl; auto].
  cbv zeta.
  destruct (bool_decide _) eqn:Hkey; [simpl; auto|].
  apply bool_decide_eq_false in Hkey.
  assert (Hnone : rateLimitCache
                  !! Public.rateLimitKey (strip_domain lower)
                       (before_first "T" (Env.first_clock_reading env)) = None).
  { destruct (rateLimitCache !! _) eqn:E; [|reflexivity].
    exfalso. apply Hkey. eauto. }
  destruct (_ || _)%bool; [simpl; auto|].
  destruct (Public.callDataForSEO new_URL request_throws net (Env.reply env)) as
      [|[error|results]|];
    [simpl; auto| | |simpl; auto].
  - destruct (truthy error); simpl; [auto|].
    split; [apply insert_subseteq, Hnone|]. right. eauto 10.
  - simpl. split; [apply insert_subseteq, Hnone|]. right. eauto 10.
Qed.

Lemma first_results_capped (new_URL : string -> option Url.t) reply results :
  First.callDataForSEO new_URL reply = Fulfilled (ApiResults results) ->
  length results <= 1000.
Proof.
  destruct reply as [| | |m|items]; simpl; try discriminate.
  destruct (First.group new_URL items); [|discriminate].
  intros [= <-]. rewrite slice_from_start, length_firstn. lia.
Qed.

Lemma second_results_capped (new_URL : string -> option Url.t) reply results :
  Second.callDataForSEO new_URL reply = Fulfilled (ApiResults results) ->
  length results <= 1000.
Proof.
  destruct reply as [| | |m|items]; simpl; try discriminate.
  destruct (Second.group new_URL items); [|discriminate].
  intros [= <-]. rewrite slice_from_start, length_firstn. lia.
Qed.

Lemma first_callDataForSEO_settles (new_URL : string -> option Url.t) reply :
  (reply = NoReply /\ First.callDataForSEO new_URL reply = Pending)
  \/ (exists error, First.callDataForSEO new_URL reply = Fulfilled (ApiError error)
                    /\ truthy error = true)
  \/ exists results, First.callDataForSEO new_URL reply = Fulfilled (ApiResults results).
Proof.
  destruct reply as [| | |m|items]; simpl; eauto.
  - right. left. eexists. split; [reflexivity|apply api_error_truthy].
  - destruct (First.group new_URL items); eauto.
Qed.

(** X15.  The handler of the first variant never rejects and stays pending
    only when the provider never replies.  It answers 200 with an empty body
    to an OPTIONS request only; a success body comes with status 200, no
    debug counters, the first clock reading and exactly the list of results
    of [callDataForSEO], which holds at most 1000 rows; an error body comes
    with status 400, 405 or 500, and a caught exception with status 500 and
    its message. *)
Theorem first_handler_answers
    (new_URL : string -> option Url.t) (JSON_parse : string -> option json)
    (env : Env.t) (event : Event.t) :
  match First.handler new_URL JSON_parse env event with
  | Fulfilled r =>
      Response.headers r = cors_headers
      /\ match Response.body r with
         | EmptyBody =>
             Event.httpMethod event = "OPTIONS"%string /\ Response.statusCode r = 200%Z
         | Stringified (SuccessBody d t rows debug) =>
             Event.httpMethod event = "POST"%string
             /\ Response.statusCode r = 200%Z
             /\ debug = None
             /\ t = Env.first_clock_reading env
             /\ First.callDataForSEO new_URL (Env.reply env) = Fulfilled (ApiResults rows)
             /\ length rows <= 1000
         | Stringified (ErrorBody error) =>
             Event.httpMethod event <> "OPTIONS"%string
             /\ truthy error = true
             /\ In (Response.statusCode r) [400; 405; 500]%Z
         | Stringified (InternalError message) =>
             Event.httpMethod event = "POST"%string
             /\ Response.statusCode r = 500%Z /\ message <> None
         | Stringified (RateLimitBody _ _ _) => False
         end
  | Pending => Env.reply env = NoReply
  | Rejected _ => False
  end.
Proof.
  unfold First.handler.
  destruct (String.eqb_spec (Event.httpMethod event) "OPTIONS") as [Ho|Ho];
    [simpl; auto|].
  destruct (String.eqb_spec (Event.httpMethod event) "POST") as [Hp|Hp]; simpl;
    [|repeat split; auto].
  unfold First.attempt.
  destruct (JSON_parse _) as [parsed|]; [|simpl; repeat split; auto; discriminate].
  destruct (destructure_domain parsed) as [domain|e];
    [|simpl; repeat split; auto; discriminate].
  destruct (negb (json_truthy domain)); [simpl; repeat split; auto|].
  destruct (lowered domain) as [lower|e]; [|simpl; repeat split; auto; discriminate].
  cbv zeta.
  destruct (negb (truthy (Env.DATAFORSEO_LOGIN env))
            || negb (truthy (Env.DATAFORSEO_PASSWORD env)))%bool;
    [simpl; repeat split; auto 6|].
  destruct (first_callDataForSEO_settles new_URL (Env.reply env))
    as [[Hreply ->] | [(error & -> & Herr) | [results Hres]]].
  - simpl. exact Hreply.
  - rewrite Herr. simpl. repeat split; auto 6.
  - rewrite Hres. simpl. repeat split; auto.
    apply (first_results_capped _ _ _ Hres).
Qed.

(** X16.  In the second variant a success body comes with status 200 and
    with debug counters that agree with the response: the rows are the dead
    pages found among the results of [callDataForSEO], [dead_pages_found] is
    their number, and
    [dead_pages_found <= urls_checked <= total_urls_from_api <= 1000] with
    [urls_checked <= 100]. *)
Theorem second_success_counters_are_consistent
    (new_URL : string -> option Url.t) (JSON_parse : string -> option json)
    (request_throws : string -> string -> bool)
    (net : Req.t -> outcome) (settle_order : nat -> list nat)
    (env : Env.t) (event : Event.t) :
  match Second.handler new_URL JSON_parse request_throws net settle_order env event with
  | Fulfilled r =>
      match Response.body r with
      | Stringified (SuccessBody d t rows debug) =>
          Response.statusCode r = 200%Z
          /\ t = Env.first_clock_reading env
          /\ exists results info,
               Second.callDataForSEO new_URL (Env.reply env)
               = Fulfilled (ApiResults results)
               /\ rows = dead_rows new_URL request_throws net results d
               /\ debug = Some info
               /\ total_urls_from_api info = length results
               /\ urls_checked info = Nat.min (length results) 100
               /\ dead_pages_found info = length rows
               /\ dead_pages_found info <= urls_checked info
               /\ urls_checked info <= total_urls_from_api info
               /\ total_urls_from_api info <= 1000
      | _ => True
      end
  | _ => True
  end.
Proof.
  unfold Second.handler.
  destruct (String.eqb (Event.httpMethod event) "OPTIONS"); [exact I|].
  destruct (negb (String.eqb (Event.httpMethod event) "POST")); [exact I|].
  unfold Second.attempt.
  destruct (JSON_parse _) as [parsed|]; [|exact I].
  destruct (destructure_domain parsed) as [domain|e]; [|exact I].
  destruct (negb (json_truthy domain)); [exact I|].
  destruct (lowered domain) as [lower|e]; [|exact I].
  cbv zeta.
  destruct (negb (truthy (Env.DATAFORSEO_LOGIN env))
            || negb (truthy (Env.DATAFORSEO_PASSWORD env)))%bool; [exact I|].
  destruct (Second.callDataForSEO new_URL (Env.reply env))
    as [|[error|results]|] eqn:Hcall; try exact I.
  { destruct (truthy error); exact I. }
  destruct (filterDeadPages_rows new_URL request_throws net settle_order results
              (strip_domain lower)) as [[-> | ->] _]; [exact I|].
  simpl. split; [reflexivity|]. split; [reflexivity|].
  eexists results, _. repeat split; simpl.
  - unfold dead_rows. rewrite js_sort_length.
    etransitivity; [apply omap_length_le|]. rewrite length_firstn. lia.
  - apply Nat.le_min_l.
  - apply (second_results_capped _ _ _ Hcall).
Qed.

Ltac not_a_client_error H :=
  simpl in H; destruct H as [H | [H | H]]; discriminate H.

(** X17.  A response with status 400 or 405, and the empty-bodied answer to
    a preflight, are decided by the request alone: when a handler gives such
    a response, it gives the same one whatever the credentials, the
    provider's reply, the clock, the network, the settling order and the
    rate-limit cache, which the public handler then leaves as it was. *)
Theorem client_errors_depend_on_request_only
    (new_URL : string -> option Url.t) (JSON_parse : string -> option json)
    (request_throws request_throws' : string -> string -> bool)
    (net net' : Req.t -> outcome) (settle_order settle_order' : nat -> list nat)
    (rateLimitCache rateLimitCache' : gmap string bool)
    (env env' : Env.t) (event : Event.t) :
  (forall r, First.handler new_URL JSON_parse env event = Fulfilled r ->
             Response.statusCode r = 400%Z \/ Response.statusCode r = 405%Z
             \/ Response.body r = EmptyBody ->
             First.handler new_URL JSON_parse env' event = Fulfilled r)
  /\ (forall r, Second.handler new_URL JSON_parse request_throws net settle_order env event
                = Fulfilled r ->
                Response.statusCode r = 400%Z \/ Response.statusCode r = 405%Z
                \/ Response.body r = EmptyBody ->
                Second.handler new_URL JSON_parse request_throws' net' settle_order' env' event
                = Fulfilled r)
  /\ (forall r, fst (Public.handler new_URL JSON_parse request_throws net rateLimitCache env event)
                = Fulfilled r ->
                Response.statusCode r = 400%Z \/ Response.statusCode r = 405%Z
                \/ Response.body r = EmptyBody ->
                Public.handler new_URL JSON_parse request_throws' net' rateLimitCache' env' event
                = (Fulfilled r, rateLimitCache')).
Proof.
  split; [|split].
  - intros r. unfold First.handler.
    destruct (String.eqb (Event.httpMethod event) "OPTIONS"); [auto|].
    destruct (negb (String.eqb (Event.httpMethod event) "POST")); [auto|].
    unfold First.attempt.
    destruct (JSON_parse _) as [parsed|];
      [|simpl; intros [= <-] H; not_a_client_error H].
    destruct (destructure_domain parsed) as [domain|e];
      [|simpl; intros [= <-] H; not_a_client_error H].
    destruct (negb (json_truthy domain)); [auto|].
    destruct (lowered domain) as [lower|e];
      [|simpl; intros [= <-] H; not_a_client_error H].
    cbv zeta.
    destruct (negb (truthy (Env.DATAFORSEO_LOGIN env))
              || negb (truthy (Env.DATAFORSEO_PASSWORD env)))%bool;
      [simpl; intros [= <-] H; not_a_client_error H|].
    destruct (First.callDataForSEO new_URL (Env.reply env)) as [|[error|results]|];
      simpl; try discriminate.
    + destruct (truthy error); intros [= <-] H; not_a_client_error H.
    + intros [= <-] H; not_a_client_error H.
    + intros [= <-] H; not_a_client_error H.
  - intros r. unfold Second.handler.
    destruct (String.eqb (Event.httpMethod event) "OPTIONS"); [auto|].
    destruct (negb (String.eqb (Event.httpMethod event) "POST")); [auto|].
    unfold Second.attempt.
    destruct (JSON_parse _) as [parsed|];
      [|simpl; intros [= <-] H; not_a_client_error H].
    destruct (destructure_domain parsed) as [domain|e];
      [|simpl; intros [= <-] H; not_a_client_error H].
    destruct (negb (json_truthy domain)); [auto|].
    destruct (lowered domain) as [lower|e];
      [|simpl; intros [= <-] H; not_a_client_error H].
    cbv zeta.
    destruct (negb (truthy (Env.DATAFORSEO_LOGIN env))
              || negb (truthy (Env.DATAFORSEO_PASSWORD env)))%bool;
      [simpl; intros [= <-] H; not_a_client_error H|].
    destruct (Second.callDataForSEO new_URL (Env.reply env)) as [|[error|results]|];
      simpl; try discriminate.
    + destruct (truthy error); simpl; intros [= <-] H; not_a_client_error H.
    + destruct (Second.filterDeadPages new_URL request_throws net settle_order results
                  (strip_domain lower)); simpl; try discriminate;
        intros [= <-] H; not_a_client_error H.
    + intros [= <-] H; not_a_client_error H.
  - intros r. unfold Public.handler.
    destruct (String.eqb (Event.httpMethod event) "OPTIONS");
      [simpl; intros ->; reflexivity|].
    destruct (negb (String.eqb (Event.httpMethod event) "POST"));
      [simpl; intros ->; reflexivity|].
    unfold Public.attempt.
    destruct (JSON_parse _) as [parsed|];
      [|simpl; intros [= <-] H; not_a_client_error H].
    destruct (destructure_domain parsed) as [domain|e];
      [|simpl; intros [= <-] H; not_a_client_error H].
    destruct (negb (json_truthy domain)); [simpl; intros ->; reflexivity|].
    destruct (lowered domain) as [lower|e];
      [|simpl; intros [= <-] H; not_a_client_error H].
    cbv zeta.
    destruct (bool_decide (is_Some (rateLimitCache !! _)));
      [simpl; intros [= <-] H; not_a_client_error H|].
    destruct (negb (truthy (Env.DATAFORSEO_LOGIN env))
              || negb (truthy (Env.DATAFORSEO_PASSWORD env)))%bool;
      [simpl; intros [= <-] H; not_a_client_error H|].
    destruct (Public.callDataForSEO new_URL request_throws net (Env.reply env)) as
        [|[error|results]|];
      simpl; try discriminate.
    + destruct (truthy error); simpl; intros [= <-] H; not_a_client_error H.
    + intros [= <-] H; not_a_client_error H.
    + intros [= <-] H; not_a_client_error H.
Qed.

(** ** The pattern of an e-mail address *)

Lemma nullable_matches (r : regex) : nullable r = true <-> matches r EmptyString.
Proof.
  induction r as [| |f|r IHr s IHs|r IHr s IHs|r IHr]; simpl.
  - split; [discriminate|]. intros H. inversion H.
  - split; [constructor|reflexivity].
  - split; [discriminate|]. intros H. inversion H.
  - rewrite andb_true_iff, IHr, IHs. split.
    + intros [Hr Hs]. apply (matches_seq _ _ _ _ Hr Hs).
    + intros H. inversion H as [| |r' s' u v Hu Hv Hr' Heq| | | |]. subst.
      destruct u; [|discriminate]. destruct v; [|discriminate]. auto.
  - rewrite orb_true_iff, IHr, IHs. split.
    + intros [H|H]; [apply matches_left|apply matches_right]; exact H.
    + intros H. inversion H; auto.
  - split; [constructor|reflexivity].
Qed.

(** A non-empty string of [r*] starts with a non-empty string of [r]. *)
Lemma matches_star_cons (r : regex) (c : ascii) (s : string) :
  matches (Star r) (String c s) ->
  exists u v, s = u +:+ v /\ matches r (String c u) /\ matches (Star r) v.
Proof.
  intros H. remember (Star r) as q eqn:Hq. remember (String c s) as w eqn:Hw.
  induction H as [| | | | | |r' u v Hu _ Hv IHv]; try discriminate.
  injection Hq as ->. destruct u as [|c' u]; simpl in Hw.
  - apply IHv; [reflexivity|exact Hw].
  - injection Hw as -> <-. eauto.
Qed.

Lemma matches_seq_inv (r q : regex) (s : string) :
  matches (Seq r q) s <-> exists u v, s = u +:+ v /\ matches r u /\ matches q v.
Proof.
  split.
  - intros H. inversion H; subst. eauto.
  - intros (u & v & -> & Hu & Hv). constructor; assumption.
Qed.

Lemma derivative_matches (r : regex) : forall c s,
  matches (derivative c r) s <-> matches r (String c s).
Proof.
  induction r as [| |f|r IHr q IHq|r IHr q IHq|r IHr]; intros c s; simpl.
  - split; intros H; inversion H.
  - split; intros H; inversion H.
  - destruct (f c) eqn:Hf; split; intros H; inversion H; subst.
    + constructor. exact Hf.
    + constructor.
    + congruence.
  - assert (Hseq : matches (Seq (derivative c r) q) s
                   <-> exists u v, s = u +:+ v /\ matches r (String c u) /\ matches q v).
    { rewrite matches_seq_inv. split.
      - intros (u & v & -> & Hu & Hv). exists u, v. rewrite <- IHr. auto.
      - intros (u & v & -> & Hu & Hv). exists u, v. rewrite IHr. auto. }
    assert (Hgoal : matches (Seq r q) (String c s)
                    <-> (exists u v, s = u +:+ v /\ matches r (String c u) /\ matches q v)
                        \/ (matches r EmptyString /\ matches q (String c s))).
    { rewrite matches_seq_inv. split.
      - intros (u & v & Heq & Hu & Hv).
        destruct u as [|c' u]; simpl in Heq.
        + right. subst v. auto.
        + left. injection Heq as <- ->. eauto.
      - intros [(u & v & -> & Hu & Hv) | [Hr Hq]].
        + exists (String c u), v. auto.
        + exists EmptyString, (String c s). auto. }
    rewrite Hgoal. destruct (nullable r) eqn:Hn.
    + split.
      * intros H. inversion H; subst.
        -- left. apply Hseq. assumption.
        -- right. split; [apply nullable_matches, Hn|apply IHq; assumption].
      * intros [H | [_ H]].
        -- apply matches_left, Hseq, H.
        -- apply matches_right, IHq, H.
    + rewrite Hseq. split; [auto|].
      intros [H | [H _]]; [exact H|].
      apply nullable_matches in H. congruence.
  - split; intros H; inversion H; subst.
    + apply matches_left, IHr. assumption.
    + apply matches_right, IHq. assumption.
    + apply matches_left, IHr. assumption.
    + apply matches_right, IHq. assumption.
  - split.
    + intros (u & v & -> & Hu & Hv)%matches_seq_inv.
      apply (matches_more r (String c u) v); [apply IHr, Hu|exact Hv].
    + intros H. apply matches_star_cons in H as (u & v & -> & Hu & Hv).
      constructor; [apply IHr, Hu|exact Hv].
Qed.

(** The matcher decides the strings of a pattern. *)
Lemma test_matches (s : string) : forall r, test r s = true <-> matches r s.
Proof.
  induction s as [|c s IH]; intros r; simpl.
  - apply nullable_matches.
  - rewrite IH. apply derivative_matches.
Qed.

Lemma matches_star_class (f : ascii -> bool) (s : string) :
  matches (Star (Class f)) s <-> string_all f s = true.
Proof.
  split.
  - intros H. remember (Star (Class f)) as q eqn:Hq.
    induction H as [| | | | | |r u v Hu _ Hv IHv]; try discriminate; [reflexivity|].
    injection Hq as ->. inversion Hu; subst. simpl.
    rewrite (IHv eq_refl). rewrite andb_true_r. assumption.
  - induction s as [|c s IH]; simpl; [constructor|].
    intros [Hc Hs]%andb_true_iff.
    apply (matches_more (Class f) (String c EmptyString) s);
      [constructor; exact Hc|apply IH, Hs].
Qed.

Lemma matches_plus_class (f : ascii -> bool) (s : string) :
  matches (plus (Class f)) s <-> s <> EmptyString /\ string_all f s = true.
Proof.
  unfold plus. split.
  - intros (u & v & -> & Hu & Hv)%matches_seq_inv.
    inversion Hu; subst. simpl. split; [discriminate|].
    apply matches_star_class in Hv. rewrite Hv, andb_true_r. assumption.
  - destruct s as [|c s]; intros [Hne Hall]; [congruence|].
    simpl in Hall. apply andb_true_iff in Hall as [Hc Hs].
    apply (matches_seq (Class f) (Star (Class f)) (String c EmptyString) s);
      [constructor; exact Hc|apply matches_star_class, Hs].
Qed.

Lemma matches_char (x : ascii) (s : string) :
  matches (Class (Ascii.eqb x)) s <-> s = String x EmptyString.
Proof.
  split.
  - intros H. inversion H as [|f c Hc| | | | |]. subst.
    apply Ascii.eqb_eq in Hc. subst. reflexivity.
  - intros ->. constructor. apply Ascii.eqb_refl.
Qed.

(** X18.  On strings of code units below 256, the pattern
    [/^[^\s@]+@[^\s@]+\.[^\s@]+$/] accepts exactly the strings
    [local@domain.tld] whose three parts are not empty and hold neither
    white space nor a further [@]; the last two may hold dots. *)
Theorem email_pattern_accepts (s : string) :
  test email_pattern s = true
  <-> exists local domain tld,
        s = local +:+ "@" +:+ domain +:+ "." +:+ tld
        /\ local <> EmptyString /\ domain <> EmptyString /\ tld <> EmptyString
        /\ string_all address_char local = true
        /\ string_all address_char domain = true
        /\ string_all address_char tld = true.
Proof.
  rewrite test_matches. unfold email_pattern. split.
  - intros (l & s1 & -> & Hl & H1)%matches_seq_inv.
    apply matches_seq_inv in H1 as (a & s2 & -> & Ha & H2).
    apply matches_seq_inv in H2 as (d & s3 & -> & Hd & H3).
    apply matches_seq_inv in H3 as (p & t & -> & Hp & Ht).
    apply matches_char in Ha, Hp. subst a p.
    apply matches_plus_class in Hl as [? ?], Hd as [? ?], Ht as [? ?].
    exists l, d, t. repeat split; assumption.
  - intros (l & d & t & -> & Hl & Hd & Ht & Al & Ad & At).
    apply matches_seq; [apply matches_plus_class; auto|].
    apply (matches_seq _ _ "@"); [apply matches_char; reflexivity|].
    apply matches_seq; [apply matches_plus_class; auto|].
    apply (matches_seq _ _ "."); [apply matches_char; reflexivity|].
    apply matches_plus_class; auto.
Qed.

(** ** subscribe.js *)

#[local] Arguments json_truthy : simpl never.

Section SubscribeHandler.
Variable JSON_parse : string -> option json.
Variable to_string : json -> string.

(** X19.  The handler of subscribe.js never rejects and stays pending only
    when [fetch] never settles.  Every request that is not a POST, an
    OPTIONS preflight included, is answered 405 with the content type as
    only header; a POST is answered 200, 400 or 500 with the CORS headers
    and a JSON body.  No request is answered 204: the preflight branch is
    never taken. *)
Theorem subscribe_answers_no_preflight
    (fetch : Subscribe.request -> Subscribe.fetch_outcome)
    (API_KEY : jsval) (event : Event.t) :
  match Subscribe.handler JSON_parse to_string fetch API_KEY event with
  | Fulfilled r =>
      Subscribe.body r <> Subscribe.NoBody
      /\ Subscribe.statusCode r <> 204%Z
      /\ if String.eqb (Event.httpMethod event) "POST"
         then Subscribe.headers r = Subscribe.cors_headers
              /\ In (Subscribe.statusCode r) [200; 400; 500]%Z
         else Subscribe.statusCode r = 405%Z
              /\ Subscribe.headers r = [("Content-Type", "application/json")]%string
              /\ Subscribe.body r
                 = Subscribe.Stringified (Subscribe.ErrorBody "Method not allowed")
  | Pending => exists request, fetch request = Subscribe.NoAnswer
  | Rejected _ => False
  end.
Proof.
  unfold Subscribe.handler.
  destruct (String.eqb_spec (Event.httpMethod event) "POST") as [Hp|Hp]; simpl;
    [|repeat split; discriminate].
  rewrite Hp. simpl. unfold Subscribe.attempt.
  destruct (JSON_parse _) as [parsed|]; [|simpl; repeat split; auto; discriminate].
  destruct (Subscribe.destructure "email" parsed) as [[email|]|e];
    [|simpl; repeat split; auto; discriminate..].
  destruct (negb (json_truthy (Some email))
            || negb (Subscribe.email_matches to_string email))%bool;
    [simpl; repeat split; auto; discriminate|].
  destruct (Subscribe.destructure "website" parsed) as [website|e];
    [|simpl; repeat split; auto; discriminate].
  destruct (json_truthy website); [simpl; repeat split; auto; discriminate|].
  destruct (negb (truthy API_KEY)); [simpl; repeat split; auto; discriminate|].
  cbv zeta.
  destruct (fetch _) as [| |status json_body] eqn:Hfetch;
    [simpl; eauto|simpl; repeat split; auto; discriminate|].
  destruct json_body; simpl; [|repeat split; auto; discriminate].
  destruct (Subscribe.ok status); [simpl; repeat split; auto; discriminate|].
  destruct ((status =? 422)%Z || (status =? 409)%Z)%bool;
    simpl; repeat split; auto; discriminate.
Qed.

(** X20.  The honeypot: a POST whose body holds a valid e-mail address and a
    truthy [website] is answered 200 with [{ success: true }] whatever the
    API key and whatever [fetch] would do, and a POST whose e-mail address
    is missing, falsy or rejected by the pattern is answered 400 in the same
    way: neither depends on the provider. *)
Theorem subscribe_decides_before_calling_provider
    (fetch : Subscribe.request -> Subscribe.fetch_outcome)
    (API_KEY : jsval) (event : Event.t) (members : list (string * json)) :
  Event.httpMethod event = "POST"%string ->
  JSON_parse (js_to_string (Event.body event)) = Some (JsonObject members) ->
  let accepted :=
    match member "email" members with
    | Some email => json_truthy (Some email) && Subscribe.email_matches to_string email
    | None => false
    end in
  (accepted = false ->
   Subscribe.handler JSON_parse to_string fetch API_KEY event
   = Fulfilled {| Subscribe.statusCode := 400;
                  Subscribe.headers := Subscribe.cors_headers;
                  Subscribe.body :=
                    Subscribe.Stringified (Subscribe.ErrorBody "Invalid email address") |})
  /\ (accepted = true -> json_truthy (member "website" members) = true ->
      Subscribe.handler JSON_parse to_string fetch API_KEY event
      = Fulfilled {| Subscribe.statusCode := 200;
                     Subscribe.headers := Subscribe.cors_headers;
                     Subscribe.body := Subscribe.Stringified Subscribe.Success |}).
Proof.
  intros Hp Hparse. cbv zeta. unfold Subscribe.handler, Subscribe.attempt.
  rewrite Hp, Hparse. simpl.
  destruct (member "email" members) as [email|]; [|split; [reflexivity|discriminate]].
  rewrite <- negb_andb.
  destruct (json_truthy (Some email) && Subscribe.email_matches to_string email)%bool;
    simpl; split; try discriminate; try reflexivity.
  intros _ ->. reflexivity.
Qed.

(** X21.  A POST with a valid e-mail address, no truthy [website] and a
    truthy API key makes one call, with the key as bearer token, the address
    as given, the one group and status [active].  When the provider answers
    with a JSON body the response is 200 [{ success: true }] for a status
    from 200 to 299, 200 with the message [Already subscribed] for 422 and
    409, and 500 [Subscription failed] for any other status; when the
    answer's body is not JSON, or [fetch] rejects, the response is 500
    [Server error], even for a status from 200 to 299. *)
Theorem subscribe_maps_provider_answer
    (fetch : Subscribe.request -> Subscribe.fetch_outcome)
    (key : string) (event : Event.t) (members : list (string * json)) (email : json) :
  Event.httpMethod event = "POST"%string ->
  JSON_parse (js_to_string (Event.body event)) = Some (JsonObject members) ->
  member "email" members = Some email ->
  json_truthy (Some email) = true ->
  Subscribe.email_matches to_string email = true ->
  json_truthy (member "website" members) = false ->
  key <> EmptyString ->
  let request :=
    {| Subscribe.authorization := "Bearer " +:+ key;
       Subscribe.email := email;
       Subscribe.groups := ["178597163422450957"%string];
       Subscribe.status := "active" |} in
  let answer (statusCode : Z) (p : Subscribe.payload) :=
    Fulfilled {| Subscribe.statusCode := statusCode;
                 Subscribe.headers := Subscribe.cors_headers;
                 Subscribe.body := Subscribe.Stringified p |} in
  Subscribe.handler JSON_parse to_string fetch (JString key) event
  = match fetch request with
    | Subscribe.NoAnswer => Pending
    | Subscribe.FetchRejected => answer 500%Z (Subscribe.ErrorBody "Server error")
    | Subscribe.Answered status false => answer 500%Z (Subscribe.ErrorBody "Server error")
    | Subscribe.Answered status true =>
        if decide (200 <= status <= 299)%Z then answer 200%Z Subscribe.Success
        else if decide (status = 422 \/ status = 409)%Z
             then answer 200%Z Subscribe.AlreadySubscribed
             else answer 500%Z (Subscribe.ErrorBody "Subscription failed")
    end.
Proof.
  intros Hp Hparse Hemail Htruthy Hmatch Hweb Hkey. cbv zeta.
  unfold Subscribe.handler, Subscribe.attempt.
  rewrite Hp, Hparse. simpl. rewrite Hemail, Htruthy, Hmatch, Hweb. simpl.
  assert (Hk : String.eqb key "" = false) by (apply String.eqb_neq, Hkey).
  rewrite Hk. simpl.
  destruct (fetch _) as [| |status [|]]; try reflexivity. simpl.
  unfold Subscribe.ok.
  destruct (decide (200 <= status <= 299)%Z) as [Hok|Hok].
  - replace ((200 <=? status)%Z && (status <=? 299)%Z)%bool with true; [reflexivity|].
    symmetry. apply andb_true_iff. split; apply Z.leb_le; lia.
  - replace ((200 <=? status)%Z && (status <=? 299)%Z)%bool with false.
    2:{ symmetry. apply andb_false_iff.
        destruct (Z.leb_spec 200 status); [|auto]. right. apply Z.leb_gt. lia. }
    destruct (decide (status = 422 \/ status = 409)%Z) as [Hdup|Hdup].
    + replace ((status =? 422)%Z || (status =? 409)%Z)%bool with true; [reflexivity|].
      symmetry. apply orb_true_iff. rewrite !Z.eqb_eq. exact Hdup.
    + replace ((status =? 422)%Z || (status =? 409)%Z)%bool with false; [reflexivity|].
      symmetry. apply orb_false_iff. rewrite !Z.eqb_neq. lia.
Qed.
End SubscribeHandler.

Lemma subscribe_decides_witness :
  Subscribe.handler signup_JSON_parse example_to_string (provider_answers 500 false)
    JUndefined (post "bot")
  = Fulfilled {| Subscribe.statusCode := 200;
                 Subscribe.headers := Subscribe.cors_headers;
                 Subscribe.body := Subscribe.Stringified Subscribe.Success |}.
Proof.
  apply (subscribe_decides_before_calling_provider signup_JSON_parse example_to_string
           (provider_answers 500 false) JUndefined (post "bot")
           [("email"%string, JsonString "bot@example.com");
            ("website"%string, JsonString "https://spam.example")]);
    reflexivity.
Defined.

Lemma subscribe_maps_provider_answer_witness :
  Subscribe.handler signup_JSON_parse example_to_string (provider_answers 422 true)
    (JString "secret") (post "reader")
  = Fulfilled {| Subscribe.statusCode := 200;
                 Subscribe.headers := Subscribe.cors_headers;
                 Subscribe.body := Subscribe.Stringified Subscribe.AlreadySubscribed |}.
Proof.
  apply (subscribe_maps_provider_answer signup_JSON_parse example_to_string
           (provider_answers 422 true) "secret" (post "reader")
           [("email"%string, JsonString "reader@example.com")]
           (JsonString "reader@example.com"));
    try reflexivity. discriminate.
Defined.

Lemma client_errors_witness :
  Second.handler example_URL example_JSON_parse refuses_unescaped unreachable reversed
    (example_env ConnectionFailed "2024-05-02T08:00:00.000Z") (post "{}")
  = Fulfilled (respond 400 (Stringified (ErrorBody (JString "Domain is required")))).
Proof.
  apply (proj1 (proj2 (client_errors_depend_on_request_only
                         example_URL example_JSON_parse
                         refuses_unescaped refuses_unescaped example_net unreachable
                         in_order reversed empty empty
                         (example_env NoReply "2024-05-01T10:00:00.000Z")
                         (example_env ConnectionFailed "2024-05-02T08:00:00.000Z")
                         (post "{}")))).
  - reflexivity.
  - left. reflexivity.
Defined.
